(** * Nakama JavaScript runtime: match core and nakama module

    A shallow embedding of [RuntimeJavascriptMatchCore] (the authoritative
    match core driven by JavaScript handlers) and of
    [server/runtime_javascript_nakama.go] (the host functions exposed to
    the handlers), with the properties of the design document proved or
    refuted on the embedded code. *)

From Stdlib Require Import ZArith Lia String Ascii.
From stdpp Require Import base option list gmap strings pretty.

Set Warnings "-register-all".
Set Default Proof Using "Type".

Local Open Scope Z_scope.
Local Open Scope string_scope.

(** ** Values of the scripting engine

    [goja.Value] together with what [Export()] turns it into.  A JavaScript
    number exports as [int64] when it is integral and as [float64]
    otherwise; the latter is carried as its IEEE-754 bit pattern, which the
    embedded code never inspects.  Both [undefined] and [null] export as
    Go's [nil]. *)

Inductive value :=
| VUndefined
| VNull
| VBool (b : bool)
| VInt (n : Z)
| VFloat (bits : N)
| VString (s : string)
| VArray (xs : list value)
| VObject (m : gmap string value).

(** [goja.IsUndefined], [goja.IsNull], and the test [v == nil] on the
    exported interface value. *)
Definition IsUndefined (v : value) : bool :=
  match v with VUndefined => true | _ => false end.

Definition IsNull (v : value) : bool :=
  match v with VNull => true | _ => false end.

Definition is_nil (v : value) : bool := IsUndefined v || IsNull v.

(** [f.Argument(i)]: the i-th argument of a call, [undefined] past the end. *)
Definition Argument (f : list value) (i : nat) : value := nth i f VUndefined.

(** [m[k]] on an exported [map[string]interface{}], dropping the presence
    flag: a missing key reads as [nil]. *)
Definition index_or_nil (m : gmap string value) (k : string) : value :=
  default VUndefined (m !! k).

(** What a host function panics with: [panic(r.ToValue(x))] throws the
    value [x] into the script, [panic(r.NewTypeError(msg))] a TypeError. *)
Inductive exception :=
| Throw (v : value)
| TypeError (msg : string).

(** ** Results of fallible code *)

Inductive res (E A : Type) :=
| Ok (a : A)
| Err (e : E).
Arguments Ok {E A} a.
Arguments Err {E A} e.

Definition res_bind {E A B} (c : res E A) (k : A -> res E B) : res E B :=
  match c with
  | Ok a => k a
  | Err e => Err e
  end.

Notation "'let*' x ':=' c 'in' k" := (res_bind c (fun x => k))
  (at level 10, x pattern, c at level 100, k at level 200).

Definition is_Ok {E A} (r : res E A) : Prop :=
  match r with Ok _ => True | Err _ => False end.

(** Visit a slice in order and stop at the first failure, as a [for ...
    range] loop whose body may panic does. *)
Fixpoint res_mapM {E A B} (f : A -> res E B) (l : list A) : res E (list B) :=
  match l with
  | [] => Ok []
  | x :: l' =>
      let* y := f x in
      let* ys := res_mapM f l' in
      Ok (y :: ys)
  end.

(** ** Go's [encoding/base64]

    The two host functions [base64UrlEncode] and [base64UrlDecode] delegate
    to the Go standard library.  The library is outside the repository; it
    is embedded here the way [base64.go] computes: three source bytes are
    packed into a 24-bit word and cut into four 6-bit digits, and back. *)

Module base64.

Record Encoding := {
  encode : string;            (* the 64-character alphabet *)
  padChar : option ascii      (* [None] is [NoPadding] *)
}.

Definition encodeStd : string :=
  "ABCDEFGHIJKLMNOPQRSTUVWXYZabcdefghijklmnopqrstuvwxyz0123456789+/".
Definition encodeURL : string :=
  "ABCDEFGHIJKLMNOPQRSTUVWXYZabcdefghijklmnopqrstuvwxyz0123456789-_".

Definition StdPadding : ascii := "="%char.

Definition StdEncoding : Encoding :=
  {| encode := encodeStd; padChar := Some StdPadding |}.
Definition URLEncoding : Encoding :=
  {| encode := encodeURL; padChar := Some StdPadding |}.
Definition RawURLEncoding : Encoding :=
  {| encode := encodeURL; padChar := None |}.

(** Bytes as unsigned 8-bit numbers; [to_byte] is the conversion
    [byte(x)], which keeps the low eight bits. *)
Definition byte_val (c : ascii) : Z := Z.of_N (N_of_ascii c).
Definition to_byte (x : Z) : ascii := ascii_of_N (Z.to_N (Z.land x 255)).

(** [enc.encode[v]] *)
Definition encode_at (enc : Encoding) (v : Z) : ascii :=
  nth (Z.to_nat v) (list_ascii_of_string (encode enc)) zero.

(** [enc.decodeMap[c]]: the position of [c] in the alphabet, [None] for
    the entries the library fills with [0xFF]. *)
Fixpoint index_of (c : ascii) (l : list ascii) (i : Z) : option Z :=
  match l with
  | [] => None
  | x :: l' => if Ascii.eqb c x then Some i else index_of c l' (i + 1)
  end.

Definition decodeMap (enc : Encoding) (c : ascii) : option Z :=
  index_of c (list_ascii_of_string (encode enc)) 0.

Definition pad (enc : Encoding) : list ascii :=
  match padChar enc with
  | Some p => [p]
  | None => []
  end.

(** [Encoding.Encode]: whole groups of three bytes first, then the
    remainder of one or two bytes, padded when the encoding pads. *)
Fixpoint Encode (enc : Encoding) (src : list ascii) : list ascii :=
  match src with
  | [] => []
  | [b0] =>
      let val := Z.shiftl (byte_val b0) 16 in
      ([encode_at enc (Z.land (Z.shiftr val 18) 63);
        encode_at enc (Z.land (Z.shiftr val 12) 63)]
       ++ pad enc ++ pad enc)%list
  | [b0; b1] =>
      let val := Z.lor (Z.shiftl (byte_val b0) 16) (Z.shiftl (byte_val b1) 8) in
      ([encode_at enc (Z.land (Z.shiftr val 18) 63);
        encode_at enc (Z.land (Z.shiftr val 12) 63);
        encode_at enc (Z.land (Z.shiftr val 6) 63)]
       ++ pad enc)%list
  | b0 :: b1 :: b2 :: rest =>
      let val := Z.lor (Z.lor (Z.shiftl (byte_val b0) 16)
                              (Z.shiftl (byte_val b1) 8))
                       (byte_val b2) in
      encode_at enc (Z.land (Z.shiftr val 18) 63)
      :: encode_at enc (Z.land (Z.shiftr val 12) 63)
      :: encode_at enc (Z.land (Z.shiftr val 6) 63)
      :: encode_at enc (Z.land val 63)
      :: Encode enc rest
  end.

Definition EncodeToString (enc : Encoding) (src : string) : string :=
  string_of_list_ascii (Encode enc (list_ascii_of_string src)).

(** The 24-bit word of a quantum and the bytes cut from it. *)
Definition assemble (d0 d1 d2 d3 : Z) : Z :=
  Z.lor (Z.lor (Z.lor (Z.shiftl d0 18) (Z.shiftl d1 12)) (Z.shiftl d2 6)) d3.

Definition quantum_bytes (val : Z) : list ascii :=
  [to_byte (Z.shiftr val 16); to_byte (Z.shiftr val 8); to_byte val].

Definition is_pad (enc : Encoding) (c : ascii) : bool :=
  match padChar enc with
  | Some p => Ascii.eqb c p
  | None => false
  end.

Definition is_newline (c : ascii) : bool :=
  Ascii.eqb c "010"%char || Ascii.eqb c "013"%char.

(** [decodeQuantum], repeated to the end of the input, on an input whose
    line breaks are already skipped.  A quantum is four digits; the last
    one may end in one or two padding characters (for a padding encoding)
    or stop after two or three digits (for a raw one).  Anything after
    the padding, a lone digit, and a character outside the alphabet are
    [CorruptInputError]s.  The library's default is non-strict: trailing
    bits of a short quantum are not inspected. *)
Fixpoint decodeQuanta (enc : Encoding) (src : list ascii) : option (list ascii) :=
  match src with
  | [] => Some []
  | [_] => None
  | c0 :: c1 :: tl =>
      match decodeMap enc c0, decodeMap enc c1 with
      | Some d0, Some d1 =>
          match tl with
          | [] =>
              match padChar enc with
              | None => Some (take 1 (quantum_bytes (assemble d0 d1 0 0)))
              | Some _ => None
              end
          | c2 :: tl2 =>
              match decodeMap enc c2 with
              | None =>
                  match tl2 with
                  | [c3] =>
                      if is_pad enc c2 && is_pad enc c3
                      then Some (take 1 (quantum_bytes (assemble d0 d1 0 0)))
                      else None
                  | _ => None
                  end
              | Some d2 =>
                  match tl2 with
                  | [] =>
                      match padChar enc with
                      | None => Some (take 2 (quantum_bytes (assemble d0 d1 d2 0)))
                      | Some _ => None
                      end
                  | c3 :: rest =>
                      match decodeMap enc c3 with
                      | Some d3 =>
                          match decodeQuanta enc rest with
                          | Some out => Some (quantum_bytes (assemble d0 d1 d2 d3) ++ out)%list
                          | None => None
                          end
                      | None =>
                          match rest with
                          | [] =>
                              if is_pad enc c3
                              then Some (take 2 (quantum_bytes (assemble d0 d1 d2 0)))
                              else None
                          | _ => None
                          end
                      end
                  end
              end
          end
      | _, _ => None
      end
  end.

(** [Encoding.DecodeString]: carriage returns and line feeds are ignored
    wherever they stand. *)
Definition DecodeString (enc : Encoding) (s : string) : option string :=
  match decodeQuanta enc (filter (fun c => is_newline c = false) (list_ascii_of_string s)) with
  | Some out => Some (string_of_list_ascii out)
  | None => None
  end.

End base64.

(** ** The nakama module: [runtime_javascript_nakama.go] *)

(** Argument readers of the module: the exported value must have the
    expected Go type, anything else is thrown back into the script. *)
Definition getString (v : value) : res exception string :=
  match v with
  | VString s => Ok s
  | _ => Err (Throw (VString "Invalid argument - string expected."))
  end.

Definition getInt (v : value) : res exception Z :=
  match v with
  | VInt i => Ok i
  | _ => Err (Throw (VString "Invalid argument - int expected."))
  end.

Definition getBool (v : value) : res exception bool :=
  match v with
  | VBool b => Ok b
  | _ => Err (Throw (VString "Invalid argument - boolean expected."))
  end.

Definition string_of_value (v : value) : option string :=
  match v with
  | VString s => Some s
  | _ => None
  end.

(** [getStringMap]: every value of the object must be a string.  The loop
    visits the keys in no fixed order; whichever it meets first, a value
    that is not a string throws the same message. *)
Definition getStringMap (v : value) : res exception (gmap string string) :=
  match v with
  | VObject m =>
      if decide (map_Forall (fun _ x => is_Some (string_of_value x)) m)
      then Ok (omap string_of_value m)
      else Err (Throw (VString "Invalid object value - string expected."))
  | _ => Err (Throw (VString "Invalid argument - object of string keys and values expected."))
  end.

(** [strings.Repeat] *)
Fixpoint strings_Repeat (s : string) (count : nat) : string :=
  match count with
  | O => ""
  | S n => s +:+ strings_Repeat s n
  end.

(** The optional second argument of the base64 functions. *)
Definition padding_arg (f : list value) : res exception bool :=
  if negb (IsUndefined (Argument f 1)) then getBool (Argument f 1) else Ok true.

Definition base64UrlEncode (f : list value) : res exception value :=
  let* in_ := getString (Argument f 0) in
  let* padding := padding_arg f in
  let e := if negb padding then base64.RawURLEncoding else base64.URLEncoding in
  let out := base64.EncodeToString e in_ in
  Ok (VString out).

Definition base64UrlDecode (f : list value) : res exception value :=
  let* in_ := getString (Argument f 0) in
  let* padding := padding_arg f in
  let in_ :=
    if negb padding then
      (* Pad string up to length multiple of 4 if needed. *)
      let maybePad := (String.length in_ mod 4)%nat in
      if negb (maybePad =? 0)%nat
      then in_ +:+ strings_Repeat "=" (4 - maybePad)
      else in_
    else in_ in
  match base64.DecodeString base64.URLEncoding in_ with
  | None => Err (Throw (VString ("Failed to decode string: " +:+ in_)))
  | Some out => Ok (VString out)
  end.

(** [base64Encode] and [base64Decode].  The encoder is written with the
    URL alphabet, the decoder with the standard one; neither is entered in
    [mappings]. *)
Definition base64Encode (f : list value) : res exception value :=
  let* in_ := getString (Argument f 0) in
  let* padding := padding_arg f in
  let e := if negb padding then base64.RawURLEncoding else base64.URLEncoding in
  let out := base64.EncodeToString e in_ in
  Ok (VString out).

Definition base64Decode (f : list value) : res exception value :=
  let* in_ := getString (Argument f 0) in
  let* padding := padding_arg f in
  let in_ :=
    if negb padding then
      (* Pad string up to length multiple of 4 if needed. *)
      let maybePad := (String.length in_ mod 4)%nat in
      if negb (maybePad =? 0)%nat
      then in_ +:+ strings_Repeat "=" (4 - maybePad)
      else in_
    else in_ in
  match base64.DecodeString base64.StdEncoding in_ with
  | None => Err (Throw (VString ("Failed to decode string: " +:+ in_)))
  | Some out => Ok (VString out)
  end.

(** *** Go's [encoding/hex]

    Outside the repository, embedded as [hex.go] computes: a byte is
    written as the two digits of its high and low half, lower case; a pair
    of digits of either case is read back as a byte, and an input of odd
    length or with a character that is no digit is an error. *)
Module hex.

Definition hextable : string := "0123456789abcdef".

(** [hextable[v]] *)
Definition hex_at (v : Z) : ascii :=
  nth (Z.to_nat v) (list_ascii_of_string hextable) zero.

(** [fromHexChar] *)
Definition fromHexChar (c : ascii) : option Z :=
  let n := base64.byte_val c in
  if ((48 <=? n) && (n <=? 57))%Z then Some (n - 48)
  else if ((97 <=? n) && (n <=? 102))%Z then Some (n - 97 + 10)
  else if ((65 <=? n) && (n <=? 70))%Z then Some (n - 65 + 10)
  else None.

Fixpoint Encode (src : list ascii) : list ascii :=
  match src with
  | [] => []
  | v :: rest =>
      hex_at (Z.shiftr (base64.byte_val v) 4)
      :: hex_at (Z.land (base64.byte_val v) 15)
      :: Encode rest
  end.

Definition EncodeToString (src : string) : string :=
  string_of_list_ascii (Encode (list_ascii_of_string src)).

Fixpoint Decode (src : list ascii) : option (list ascii) :=
  match src with
  | [] => Some []
  | [_] => None
  | p :: q :: rest =>
      match fromHexChar p, fromHexChar q with
      | Some a, Some b =>
          match Decode rest with
          | Some out => Some (base64.to_byte (Z.lor (Z.shiftl a 4) b) :: out)
          | None => None
          end
      | _, _ => None
      end
  end.

Definition DecodeString (s : string) : option string :=
  match Decode (list_ascii_of_string s) with
  | Some out => Some (string_of_list_ascii out)
  | None => None
  end.

End hex.

Definition base16Encode (f : list value) : res exception value :=
  let* in_ := getString (Argument f 0) in
  let out := hex.EncodeToString in_ in
  Ok (VString out).

Definition base16Decode (f : list value) : res exception value :=
  let* in_ := getString (Argument f 0) in
  match hex.DecodeString in_ with
  | None => Err (Throw (VString ("Failed to decode string: " +:+ in_)))
  | Some out => Ok (VString out)
  end.

(** *** [httpRequest]

    The module owns one [http.Client]; its [Timeout] is a [time.Duration],
    a signed 64-bit count of nanoseconds. *)

Definition wrap_int64 (x : Z) : Z := (x + 2 ^ 63) mod 2 ^ 64 - 2 ^ 63.

Definition Millisecond : Z := 1000000.
Definition Second : Z := 1000 * Millisecond.

Record http_Client := { Timeout : Z }.

Record runtimeJavascriptNakamaModule := {
  httpClient : http_Client
}.

Definition NewRuntimeJavascriptNakamaModule : runtimeJavascriptNakamaModule :=
  {| httpClient := {| Timeout := wrap_int64 (5 * Second) |} |}.

Record http_Request := {
  req_Method : string;
  req_URL : string;
  req_Body : option string;
  req_Header : gmap string string
}.

Record http_Response := {
  StatusCode : Z;
  resp_Header : gmap string (list string);
  resp_Body : res string string   (* what [ioutil.ReadAll] yields *)
}.

(** ** The match core: [RuntimeJavascriptMatchCore] *)

(** *** Data

    [uuid.UUID] is a 16-byte array compared with [==]; it is carried as the
    128-bit number it spells. *)
Definition UUID : Type := N.

Record PresenceID := {
  SessionID : UUID;
  Node : string
}.

Global Instance PresenceID_eq_dec : EqDecision PresenceID.
Proof. solve_decision. Defined.

Record MatchPresence := {
  mp_Node : string;
  mp_UserID : UUID;
  mp_SessionID : UUID;
  mp_Username : string
}.

(** [rtapi.UserPresence], the sender a message declares. *)
Record UserPresence := {
  UserId : string;
  SessionId : string;
  Username : string
}.

(** [rtapi.Envelope] carrying an [rtapi.MatchData]. *)
Record Envelope := {
  MatchId : string;
  Presence : option UserPresence;
  OpCode : Z;
  Data : option string;
  Reliable : bool
}.

Record DeferredMessage := {
  dm_PresenceIDs : list PresenceID;
  dm_Envelope : option Envelope;
  dm_Reliable : bool
}.

Record MatchDataMessage := {
  msg_UserID : UUID;
  msg_SessionID : UUID;
  msg_Username : string;
  msg_Node : string;
  msg_OpCode : Z;
  msg_Data : option string;
  msg_Reliable : bool;
  msg_ReceiveTime : Z
}.

Record PresenceStream := {
  stream_Mode : Z;
  stream_Subject : UUID;
  stream_Label : string
}.

(** Modelled from the spec: [MatchPresenceList] is declared outside the
    source at hand.  The design document's Presence Directory is an
    ordered collection of presences keyed by (SessionID, Node), with a
    membership test and a full listing that is a snapshot for the caller
    to use freely. *)
Record MatchPresenceList := {
  presences : list MatchPresence
}.

Definition presence_id (p : MatchPresence) : PresenceID :=
  {| SessionID := mp_SessionID p; Node := mp_Node p |}.

Definition ListPresenceIDs (pl : MatchPresenceList) : list PresenceID :=
  presence_id <$> presences pl.

Definition Contains (pl : MatchPresenceList) (p : PresenceID) : bool :=
  bool_decide (p ∈ ListPresenceIDs pl).

(** A Go [error]: one made by [errors.New], or the exception a handler
    threw. *)
Inductive error :=
| errors_New (msg : string)
| HandlerError (e : exception).

(** A Go [interface{}] handed back to the scheduler: [None] is [nil]. *)
Definition Export (v : value) : option value :=
  if is_nil v then None else Some v.

Definition ToValue (state : option value) : value :=
  default VNull state.

(** [goja.Callable], called with [this = null]. *)
Definition Callable : Type := list value -> res exception value.

(** The match registry, as far as the core calls it. *)
Record MatchRegistry := {
  registry_UpdateMatchLabel : UUID -> string -> option string
}.

Record RuntimeJavascriptMatchCore := {
  matchRegistry : MatchRegistry;
  deferMessageFn : DeferredMessage -> option string;
  presenceList : MatchPresenceList;
  id : UUID;
  node : string;
  stopped : bool;
  idStr : string;
  stream : PresenceStream;
  label : string;
  initFn : Callable;
  joinAttemptFn : Callable;
  joinFn : Callable;
  leaveFn : Callable;
  loopFn : Callable;
  terminateFn : Callable;
  ctx : gmap string value;
  dispatcher : value;
  nakamaModule : value;
  loggerModule : value
}.

(** Calls that leave the core, in the order they are made. *)
Inductive call :=
| SendToPresenceIDs (presenceIDs : list PresenceID) (msg : option Envelope) (reliable : bool)
| DeferMessage (m : DeferredMessage)
| Kick (s : PresenceStream) (presences : list MatchPresence)
| UpdateMatchLabel (id : UUID) (label : string).

(** The core and the calls issued so far. *)
Record State := {
  rm : RuntimeJavascriptMatchCore;
  calls : list call
}.

Definition issue (c : call) (st : State) : State :=
  {| rm := rm st; calls := calls st ++ [c] |}.

(** [s[i] = s[len(s)-1]; s = s[:len(s)-1]]: overwrite slot [i] with the
    last element and cut the slice by one.  The source only does this at an
    index it has just read. *)
Definition swap_remove {A} (i : nat) (s : list A) : list A :=
  match s !! (length s - 1)%nat with
  | Some x => take (length s - 1) (<[i := x]> s)
  | None => s
  end.

(** The inner loop of the reconciliation: the first index of
    [actualPresenceIDs] whose SessionID and Node both equal those of
    [presenceID]. *)
Definition same_presence (presenceID actual : PresenceID) : bool :=
  bool_decide (SessionID presenceID = SessionID actual)
  && bool_decide (Node presenceID = Node actual).

Fixpoint find_actual (presenceID : PresenceID) (actualPresenceIDs : list PresenceID)
    (j : nat) : option nat :=
  match actualPresenceIDs with
  | [] => None
  | actual :: tl =>
      if same_presence presenceID actual then Some j
      else find_actual presenceID tl (S j)
  end.

(** The outer loop, [for i := 0; i < len(presenceIDs); i++]: a requested
    presence that is found stays and uses up its entry of the listing; one
    that is not found is replaced by the last request, and the same index
    is looked at again ([i--] then [i++]).  Every turn either advances [i]
    or shortens [presenceIDs], so [len(presenceIDs) - i] turns are all the
    loop can make; [turns] counts them down. *)
Fixpoint reconcile (turns : nat) (presenceIDs actualPresenceIDs : list PresenceID)
    (i : nat) : list PresenceID :=
  match turns with
  | O => presenceIDs
  | S turns' =>
      match presenceIDs !! i with
      | None => presenceIDs
      | Some presenceID =>
          match find_actual presenceID actualPresenceIDs 0 with
          | Some j =>
              reconcile turns' presenceIDs (swap_remove j actualPresenceIDs) (S i)
          | None =>
              reconcile turns' (swap_remove i presenceIDs) actualPresenceIDs i
          end
      end
  end.

(** A buffered Go channel of inbound messages: what is queued, oldest
    first.  [len(ch)] is its length, a receive takes the head, a send that
    completes adds at the tail. *)
Definition chan : Type := list MatchDataMessage.

(** What the transport does while one [MatchLoop] call runs: the sends
    that complete between the length snapshot and the k-th receive
    (k = 1, 2, ...), and those that complete while the handler runs. *)
Record Producers := {
  before_receive : nat -> list MatchDataMessage;
  during_handler : list MatchDataMessage
}.

Definition with_label (rm : RuntimeJavascriptMatchCore) (l : string)
    (c : gmap string value) : RuntimeJavascriptMatchCore :=
  {| matchRegistry := matchRegistry rm; deferMessageFn := deferMessageFn rm;
     presenceList := presenceList rm; id := id rm; node := node rm;
     stopped := stopped rm; idStr := idStr rm; stream := stream rm;
     label := l;
     initFn := initFn rm; joinAttemptFn := joinAttemptFn rm; joinFn := joinFn rm;
     leaveFn := leaveFn rm; loopFn := loopFn rm; terminateFn := terminateFn rm;
     ctx := c;
     dispatcher := dispatcher rm; nakamaModule := nakamaModule rm;
     loggerModule := loggerModule rm |}.

Definition with_presences (rm : RuntimeJavascriptMatchCore)
    (d : DeferredMessage -> option string) (pl : MatchPresenceList)
    : RuntimeJavascriptMatchCore :=
  {| matchRegistry := matchRegistry rm; deferMessageFn := d;
     presenceList := pl; id := id rm; node := node rm;
     stopped := stopped rm; idStr := idStr rm; stream := stream rm;
     label := label rm;
     initFn := initFn rm; joinAttemptFn := joinAttemptFn rm; joinFn := joinFn rm;
     leaveFn := leaveFn rm; loopFn := loopFn rm; terminateFn := terminateFn rm;
     ctx := ctx rm;
     dispatcher := dispatcher rm; nakamaModule := nakamaModule rm;
     loggerModule := loggerModule rm |}.

(** ** What the embedded code takes from its surroundings

    Outside the repository: the engine's [ToInteger] conversion, Go's
    [strings.ToUpper], [http.NewRequest] (which rejects an unparsable URL)
    and the round trip [Client.Do], which the network decides and which
    runs under the timeout the client carries at that moment; the UUID
    parser and printer of [gofrs/uuid].  Declared elsewhere in the
    repository: the argument readers [getJsInt], [getJsBool] and
    [getJsString] of the JavaScript runtime, and the names of the two
    context keys [MatchInit] and [matchLabelUpdate] write. *)
Class Runtime := {
  ToInteger : value -> Z;
  strings_ToUpper : string -> string;
  http_NewRequest : string -> string -> option string -> res string http_Request;
  Do : http_Client -> http_Request -> res string http_Response;
  uuid_FromString : string -> option UUID;
  uuid_String : UUID -> string;
  getJsInt : value -> res exception Z;
  getJsBool : value -> res exception bool;
  getJsString : value -> res exception string;
  __RUNTIME_JAVASCRIPT_CTX_MATCH_LABEL : string;
  __RUNTIME_JAVASCRIPT_CTX_MATCH_TICK_RATE : string
}.

(** The names of the context keys [MatchJoinAttempt] writes, declared
    elsewhere in the repository. *)
Class ContextKeys := {
  __RUNTIME_JAVASCRIPT_CTX_USER_ID : string;
  __RUNTIME_JAVASCRIPT_CTX_USERNAME : string;
  __RUNTIME_JAVASCRIPT_CTX_VARS : string;
  __RUNTIME_JAVASCRIPT_CTX_USER_SESSION_EXP : string;
  __RUNTIME_JAVASCRIPT_CTX_SESSION_ID : string;
  __RUNTIME_JAVASCRIPT_CTX_CLIENT_IP : string;
  __RUNTIME_JAVASCRIPT_CTX_CLIENT_PORT : string
}.

(** ** Instances used in the examples

    Simple stand-ins for the functions the sections above take as given:
    the canonical 8-4-4-4-12 form of a UUID, readers that accept exactly
    the matching exported type, and an upper-casing of ASCII letters. *)

Definition hex_digit (c : ascii) : option N :=
  let n := N_of_ascii c in
  if ((48 <=? n) && (n <=? 57))%N then Some (n - 48)%N
  else if ((97 <=? n) && (n <=? 102))%N then Some (n - 87)%N
  else if ((65 <=? n) && (n <=? 70))%N then Some (n - 55)%N
  else None.

Fixpoint canonical_uuid (s : list ascii) (pos : nat) (acc : N) : option N :=
  match s with
  | [] => if (pos =? 36)%nat then Some acc else None
  | c :: s' =>
      if ((pos =? 8) || (pos =? 13) || (pos =? 18) || (pos =? 23))%nat then
        if Ascii.eqb c "-"%char then canonical_uuid s' (S pos) acc else None
      else
        match hex_digit c with
        | Some d => canonical_uuid s' (S pos) (16 * acc + d)%N
        | None => None
        end
  end.

Definition sample_FromString (s : string) : option UUID :=
  canonical_uuid (list_ascii_of_string s) 0 0%N.

Definition hex_char (d : N) : ascii :=
  if (d <? 10)%N then ascii_of_N (48 + d) else ascii_of_N (87 + d).

Fixpoint hex_chars (digits : nat) (n : N) (acc : list ascii) : list ascii :=
  match digits with
  | O => acc
  | S k =>
      let acc := hex_char (n mod 16)%N :: acc in
      let acc := if ((k =? 20) || (k =? 16) || (k =? 12) || (k =? 8))%nat
                 then "-"%char :: acc else acc in
      hex_chars k (n / 16)%N acc
  end.

Definition sample_String (u : UUID) : string :=
  string_of_list_ascii (hex_chars 32 u []).

Definition sample_getJsInt (v : value) : res exception Z :=
  match v with
  | VInt i => Ok i
  | _ => Err (TypeError "expects number")
  end.

Definition sample_getJsBool (v : value) : res exception bool :=
  match v with
  | VBool b => Ok b
  | _ => Err (TypeError "expects boolean")
  end.

Definition sample_getJsString (v : value) : res exception string :=
  match v with
  | VString s => Ok s
  | _ => Err (TypeError "expects string")
  end.

Definition sample_ToInteger (v : value) : Z :=
  match v with
  | VInt i => i
  | _ => 0
  end.

Definition upper_ascii (c : ascii) : ascii :=
  let n := N_of_ascii c in
  if ((97 <=? n) && (n <=? 122))%N then ascii_of_N (n - 32) else c.

Definition sample_ToUpper (s : string) : string :=
  string_of_list_ascii (upper_ascii <$> list_ascii_of_string s).

(** ** Notions used in the statements *)

(** The error classes of the design document, read off the messages the
    source produces: a configuration error is one of the two complaints of
    [MatchInit] about [tick_rate], a protocol violation of [MatchLoop] its
    complaint about the shape of the handler's answer. *)
Definition ConfigurationError (e : error) : Prop :=
  e = errors_New "match_init return value has no 'tick_rate' property"
  \/ e = errors_New "match_init 'tick_rate' must be a number between 1 and 30".

Definition LoopProtocolViolation (e : error) : Prop :=
  e = errors_New "match_loop is expected to return an object with 'state' property".

(** The handler's answer carries a [tick_rate] that is an integer between
    1 and 30. *)
Definition has_tick_rate (retVal : value) : bool :=
  match retVal with
  | VObject retMap =>
      match retMap !! "tick_rate" with
      | Some (VInt r) => (1 <=? r)%Z && (r <=? 30)%Z
      | _ => false
      end
  | _ => false
  end.

(** It carries a [state] property. *)
Definition has_state (retVal : value) : bool :=
  match retVal with
  | VObject retMap => bool_decide (is_Some (retMap !! "state"))
  | _ => false
  end.

(** Its [label], when there is one, is a string. *)
Definition label_fits (retVal : value) : bool :=
  match retVal with
  | VObject retMap =>
      match retMap !! "label" with
      | None | Some (VString _) => true
      | Some _ => false
      end
  | _ => true
  end.

Definition is_object (v : value) : bool :=
  match v with VObject _ => true | _ => false end.

(** The arguments [MatchInit] calls the handler with. *)
Definition init_args (core : RuntimeJavascriptMatchCore) (params : gmap string value)
    : list value :=
  [VObject (ctx core); loggerModule core; nakamaModule core; VObject params].

(** ** A match for the examples *)

Definition sample_registry : MatchRegistry :=
  {| registry_UpdateMatchLabel := fun _ _ => None |}.

Definition sample_presence (session : UUID) : MatchPresence :=
  {| mp_Node := "node1"; mp_UserID := (session + 256)%N;
     mp_SessionID := session; mp_Username := "player" |}.

Definition sample_core (init loop : Callable) (stop : bool)
    (members : list MatchPresence) : RuntimeJavascriptMatchCore :=
  {| matchRegistry := sample_registry;
     deferMessageFn := fun _ => None;
     presenceList := {| presences := members |};
     id := 1%N;
     node := "node1";
     stopped := stop;
     idStr := "00000000-0000-0000-0000-000000000001.node1";
     stream := {| stream_Mode := 6; stream_Subject := 1%N; stream_Label := "node1" |};
     label := "";
     initFn := init;
     joinAttemptFn := fun _ => Ok VNull;
     joinFn := fun _ => Ok VNull;
     leaveFn := fun _ => Ok VNull;
     loopFn := loop;
     terminateFn := fun _ => Ok VNull;
     ctx := ∅;
     dispatcher := VNull;
     nakamaModule := VNull;
     loggerModule := VNull |}.

Definition sample_state (stop : bool) (members : list MatchPresence) : State :=
  {| rm := sample_core (fun _ => Ok VNull) (fun _ => Ok VNull) stop members;
     calls := [] |}.

(** A filter entry and a sender as a script writes them. *)
Definition js_presence (session : string) : value :=
  VObject (<["session_id" := VString session]> (<["node_id" := VString "node1"]> ∅)).

Definition js_sender (user session : string) (username : value) : value :=
  VObject (<["user_id" := VString user]>
           (<["session_id" := VString session]>
            (<["username" := username]> ∅))).

Definition session_a : string := "00000000-0000-0000-0000-00000000000a".
Definition session_b : string := "00000000-0000-0000-0000-00000000000b".
Definition session_c : string := "00000000-0000-0000-0000-00000000000c".
Definition user_a : string := "00000000-0000-0000-0000-00000000010a".

Definition sample_NewRequest (method url : string) (body : option string)
    : res string http_Request :=
  Ok {| req_Method := method; req_URL := url; req_Body := body; req_Header := ∅ |}.

(** A transport that answers every request with status 200 and, as the
    body, the number of nanoseconds the client would wait. *)
Definition sample_Do (c : http_Client) (req : http_Request) : res string http_Response :=
  Ok {| StatusCode := 200; resp_Header := ∅;
        resp_Body := Ok (pretty (Timeout c)) |}.

Definition sample_runtime : Runtime :=
  {| ToInteger := sample_ToInteger;
     strings_ToUpper := sample_ToUpper;
     http_NewRequest := sample_NewRequest;
     Do := sample_Do;
     uuid_FromString := sample_FromString;
     uuid_String := sample_String;
     getJsInt := sample_getJsInt;
     getJsBool := sample_getJsBool;
     getJsString := sample_getJsString;
     __RUNTIME_JAVASCRIPT_CTX_MATCH_LABEL := "match_label";
     __RUNTIME_JAVASCRIPT_CTX_MATCH_TICK_RATE := "match_tick_rate" |}.

Definition sample_keys : ContextKeys :=
  {| __RUNTIME_JAVASCRIPT_CTX_USER_ID := "user_id";
     __RUNTIME_JAVASCRIPT_CTX_USERNAME := "username";
     __RUNTIME_JAVASCRIPT_CTX_VARS := "vars";
     __RUNTIME_JAVASCRIPT_CTX_USER_SESSION_EXP := "user_session_exp";
     __RUNTIME_JAVASCRIPT_CTX_SESSION_ID := "session_id";
     __RUNTIME_JAVASCRIPT_CTX_CLIENT_IP := "client_ip";
     __RUNTIME_JAVASCRIPT_CTX_CLIENT_PORT := "client_port" |}.

(** Answers of a [match_init] handler: a complete one, and one whose
    label is a number. *)
Definition sample_init_answer : value :=
  VObject (<["state" := VObject (<["score" := VInt 0]> ∅)]>
           (<["tick_rate" := VInt 10]>
            (<["label" := VString "arena-1"]> ∅))).

Definition sample_init_answer_numeric_label : value :=
  VObject (<["state" := VObject (<["score" := VInt 0]> ∅)]>
           (<["tick_rate" := VInt 10]>
            (<["label" := VInt 7]> ∅))).

(** A match with the members a and b, and calls of the dispatcher on it:
    a broadcast to a and to the absent c, one that names a twice, one
    with an empty filter, and one in the name of a sender. *)
Definition sample_members : list MatchPresence :=
  [sample_presence 10%N; sample_presence 11%N].

Definition sample_broadcast (filter sender : value) : list value :=
  [VInt 7; VString "ping"; filter; sender].

Definition sample_filter_absent : list value :=
  [js_presence session_a; js_presence session_c].

Definition sample_filter_twice : list value :=
  [js_presence session_a; js_presence session_a; js_presence session_b].

Definition sample_envelope (presence : option UserPresence) : Envelope :=
  {| MatchId := "00000000-0000-0000-0000-000000000001.node1";
     Presence := presence; OpCode := 7; Data := Some "ping"; Reliable := true |}.

Definition sample_message : MatchDataMessage :=
  {| msg_UserID := 266%N; msg_SessionID := 10%N; msg_Username := "player";
     msg_Node := "node1"; msg_OpCode := 1; msg_Data := Some "move";
     msg_Reliable := true; msg_ReceiveTime := 1600000000000 |}.

Definition sample_producers : Producers :=
  {| before_receive := fun _ => [sample_message]; during_handler := [sample_message] |}.

(** Two calls of [httpRequest]: one that gives a timeout of 100
    milliseconds, and one that gives none. *)
Definition sample_request (timeout : list value) : list value :=
  [VString "http://localhost/"; VString "get"; VObject ∅; VString ""] ++ timeout.

(** What [httpRequest] hands back for an answer of [sample_Do]. *)
Definition sample_answer (waited : string) : value :=
  VObject (<["code" := VInt 200]>
           (<["headers" := VObject ∅]>
            (<["body" := VString waited]> ∅))).

(** A match whose [match_join_attempt] handler is given. *)
Definition sample_core_joining (attempt : Callable) : RuntimeJavascriptMatchCore :=
  {| matchRegistry := sample_registry;
     deferMessageFn := fun _ => None;
     presenceList := {| presences := sample_members |};
     id := 1%N;
     node := "node1";
     stopped := false;
     idStr := "00000000-0000-0000-0000-000000000001.node1";
     stream := {| stream_Mode := 6; stream_Subject := 1%N; stream_Label := "node1" |};
     label := "";
     initFn := fun _ => Ok VNull;
     joinAttemptFn := attempt;
     joinFn := fun _ => Ok VNull;
     leaveFn := fun _ => Ok VNull;
     loopFn := fun _ => Ok VNull;
     terminateFn := fun _ => Ok VNull;
     ctx := ∅;
     dispatcher := VNull;
     nakamaModule := VNull;
     loggerModule := VNull |}.

(** The answer of a handler that refuses a candidate. *)
Definition sample_refusal : value :=
  VObject (<["accept" := VBool false]>
           (<["reject_msg" := VString "full"]>
            (<["state" := VInt 1]> ∅))).

(** What the reconciliation loop keeps true, for the request [ids] it
    started from and the listing [dir] of the members: the requests already
    passed, together with the entries of the listing not yet used up, are
    the listing; nothing is requested that was not; and no requested member
    has been dropped. *)
Record reconcile_inv (ids dir presenceIDs actual : list PresenceID) (i : nat) : Prop := {
  inv_index : (i <= length presenceIDs)%nat;
  inv_listing : take i presenceIDs ++ actual ≡ₚ dir;
  inv_requested : forall q, q ∈ presenceIDs -> q ∈ ids;
  inv_members : forall q, q ∈ ids -> q ∈ dir -> q ∈ presenceIDs
}.

(** The check run on each of the 64 digits of the URL alphabet: it is
    read back as itself, and it is not a line break. *)
Definition digit_ok (n : nat) : bool :=
  let c := base64.encode_at base64.URLEncoding (Z.of_nat n) in
  match base64.decodeMap base64.URLEncoding c with
  | Some d => (d =? Z.of_nat n)%Z
  | None => false
  end && negb (base64.is_newline c).

(** ** The functions that depend on the surroundings *)

Section WithRuntime.

Context {host : Runtime}.
Context {keys : ContextKeys}.


Definition valid_method (method : string) : bool :=
  bool_decide (method = "GET") || bool_decide (method = "POST")
  || bool_decide (method = "PUT") || bool_decide (method = "PATCH").

Definition httpRequest (f : list value) (n : runtimeJavascriptNakamaModule)
  : res exception value * runtimeJavascriptNakamaModule :=
  match getString (Argument f 0) with
  | Err e => (Err e, n)
  | Ok url =>
  match getString (Argument f 1) with
  | Err e => (Err e, n)
  | Ok method0 =>
  let method := strings_ToUpper method0 in
  match getStringMap (Argument f 2) with
  | Err e => (Err e, n)
  | Ok headers =>
  match getString (Argument f 3) with
  | Err e => (Err e, n)
  | Ok body =>
  let timeoutArg := Argument f 4 in
  let n :=
    if negb (IsUndefined timeoutArg)
    then {| httpClient := {| Timeout := wrap_int64 (wrap_int64 (ToInteger timeoutArg) * Millisecond) |} |}
    else n in
  (if bool_decide (url = "") then
     Err (Throw (VString "URL string cannot be empty."))
   else if negb (valid_method method) then
     Err (Throw (VString "Invalid method must be one of: 'get', 'post', 'put', 'patch'."))
   else
     let requestBody := if bool_decide (body = "") then None else Some body in
     match http_NewRequest method url requestBody with
     | Err err => Err (Throw (VString ("HTTP request is invalid: " +:+ err)))
     | Ok req =>
         let req := {| req_Method := req_Method req; req_URL := req_URL req;
                       req_Body := req_Body req;
                       req_Header := headers ∪ req_Header req |} in
         match Do (httpClient n) req with
         | Err err => Err (Throw (VString ("HTTP request error: " +:+ err)))
         | Ok resp =>
             match resp_Body resp with
             | Err err => Err (Throw (VString ("HTTP response body error: " +:+ err)))
             | Ok responseBody =>
                 Ok (VObject
                       (<["code" := VInt (StatusCode resp)]>
                        (<["headers" := VObject ((fun vs => VArray (VString <$> vs)) <$> resp_Header resp)]>
                         (<["body" := VString responseBody]> ∅))))
             end
         end
     end, n)
  end end end end.



(** *** [MatchInit] *)

(** The checks on the handler's return value, in the order of the
    source; nothing is written before all of them pass. *)
Definition init_result (retVal : value) : res error (option value * Z * string) :=
  match retVal with
  | VObject retMap =>
      match retMap !! "tick_rate" with
      | None => Err (errors_New "match_init return value has no 'tick_rate' property")
      | Some (VInt rate) =>
          if ((rate <? 1) || (rate >? 30))%Z then
            Err (errors_New "match_init 'tick_rate' must be a number between 1 and 30")
          else
            let* label :=
              match retMap !! "label" with
              | None => Ok ""
              | Some (VString label) => Ok label
              | Some _ => Err (errors_New "match_init 'label' value must be a string")
              end in
            match retMap !! "state" with
            | None => Err (errors_New "match_init is expected to return an object with a 'state' property")
            | Some state => Ok (Export state, rate, label)
            end
      | Some _ => Err (errors_New "match_init 'tick_rate' must be a number between 1 and 30")
      end
  | _ => Err (errors_New "match_init is expected to return an object with 'state', 'tick_rate' and 'label' properties")
  end.

Definition MatchInit (core : RuntimeJavascriptMatchCore)
    (presenceList : MatchPresenceList)
    (deferMessageFn : DeferredMessage -> option string)
    (params : gmap string value)
    : res error (option value * Z) * RuntimeJavascriptMatchCore :=
  let args := [VObject (ctx core); loggerModule core; nakamaModule core; VObject params] in
  match initFn core args with
  | Err err => (Err (HandlerError err), core)
  | Ok retVal =>
      match init_result retVal with
      | Err err => (Err err, core)
      | Ok (state, rate, label_) =>
          let c := <[__RUNTIME_JAVASCRIPT_CTX_MATCH_LABEL := VString label_]> (ctx core) in
          let c := <[__RUNTIME_JAVASCRIPT_CTX_MATCH_TICK_RATE := VInt rate]> c in
          let core := with_label core (label core) c in
          let core := with_presences core deferMessageFn presenceList in
          (Ok (state, rate), core)
      end
  end.

(** *** [MatchLoop] *)

Definition presenceObj (msg : MatchDataMessage) : value :=
  VObject (<["user_id" := VString (uuid_String (msg_UserID msg))]>
           (<["session_id" := VString (uuid_String (msg_SessionID msg))]>
            (<["username" := VString (msg_Username msg)]>
             (<["node" := VString (msg_Node msg)]> ∅)))).

Definition msgObj (msg : MatchDataMessage) : value :=
  VObject (<["sender" := presenceObj msg]>
           (<["op_code" := VInt (msg_OpCode msg)]>
            (<["data" := match msg_Data msg with
                         | Some d => VString d
                         | None => VNull
                         end]>
             (<["reliable" := VBool (msg_Reliable msg)]>
              (<["receive_time_ms" := VInt (msg_ReceiveTime msg)]> ∅))))).

(** [for i := 1; i <= size; i++ { msg := <-inputCh; ... }] with [n] turns
    left.  Before each receive the transport may have completed further
    sends; a receive on an empty channel would wait, which [None]
    stands for. *)
Fixpoint drain (env : Producers) (n i : nat) (inputCh : chan) (inputs : list value)
    : option (list value * chan) :=
  match n with
  | O => Some (inputs, inputCh)
  | S n' =>
      match (inputCh ++ before_receive env i)%list with
      | [] => None
      | msg :: inputCh' => drain env n' (S i) inputCh' (inputs ++ [msgObj msg])%list
      end
  end.

Definition loop_args (core : RuntimeJavascriptMatchCore) (tick : Z)
    (state : option value) (inputs : list value) : list value :=
  [VObject (ctx core); loggerModule core; nakamaModule core; dispatcher core;
   VInt tick; ToValue state; VArray inputs].

(** What [MatchLoop] makes of the handler's answer. *)
Definition loop_result (r : res exception value) : res error (option value) :=
  match r with
  | Err err => Err (HandlerError err)
  | Ok retVal =>
      if IsNull retVal || IsUndefined retVal then Ok None
      else
        match retVal with
        | VObject retMap =>
            match retMap !! "state" with
            | None => Err (errors_New "match_loop is expected to return an object with 'state' property")
            | Some newState => Ok (Export newState)
            end
        | _ => Err (errors_New "match_loop is expected to return an object with 'state' property")
        end
  end.

(** The call yields its result and the channel as it stands when the
    handler has returned. *)
Definition MatchLoop (core : RuntimeJavascriptMatchCore) (tick : Z)
    (state : option value) (inputCh : chan) (env : Producers)
    : option (res error (option value) * chan) :=
  let size := length inputCh in
  match drain env size 1 inputCh [] with
  | None => None
  | Some (inputs, inputCh) =>
      let args := loop_args core tick state inputs in
      let r := loopFn core args in
      Some (loop_result r, (inputCh ++ during_handler env)%list)
  end.

Definition Label (core : RuntimeJavascriptMatchCore) : string := label core.

(** *** [validateBroadcast] *)

(** Argument 1: the payload, a string or nothing. *)
Definition broadcast_data (data : value) : res exception (option string) :=
  if negb (IsUndefined data) && negb (IsNull data) then
    match data with
    | VString dataStr => Ok (Some dataStr)
    | _ => Err (TypeError "expects data to be a string or nil")
    end
  else Ok None.

(** The body of the loop over [filterSlice]. *)
Definition filter_entry (p : value) : res exception PresenceID :=
  match p with
  | VObject pMap =>
      let sidVal := index_or_nil pMap "session_id" in
      if is_nil sidVal then
        Err (TypeError "presence is expected to contain a 'session_id'")
      else
        match sidVal with
        | VString sidStr =>
            match uuid_FromString sidStr with
            | None => Err (TypeError "expects a valid 'session_id'")
            | Some sid =>
                let nodeVal := index_or_nil pMap "node_id" in
                if is_nil nodeVal then
                  Err (TypeError "expects presence to contain a 'node_id'")
                else
                  match nodeVal with
                  | VString node => Ok {| SessionID := sid; Node := node |}
                  | _ => Err (TypeError "expects a 'node_id' string")
                  end
            end
        | _ => Err (TypeError "expects a 'session_id' string")
        end
  | _ => Err (TypeError "expects a valid set of presences")
  end.

(** Argument 2: the recipient filter.  [None] is the nil slice of a call
    without filter, [Some []] the empty slice made for an empty array. *)
Definition broadcast_filter (filter : value) : res exception (option (list PresenceID)) :=
  if negb (IsUndefined filter) && negb (IsNull filter) then
    match filter with
    | VArray filterSlice =>
        let* presenceIDs := res_mapM filter_entry filterSlice in
        Ok (Some presenceIDs)
    | _ => Err (TypeError "expects an array of presences or nil")
    end
  else Ok None.

(** Argument 3: the sender.  The last type assertion is made on [sidVal],
    as the source has it, and its result is stored as the username. *)
Definition broadcast_sender (sender : value) : res exception (option UserPresence) :=
  if negb (IsUndefined sender) && negb (IsNull sender) then
    match sender with
    | VObject senderMap =>
        let userIdVal := index_or_nil senderMap "user_id" in
        if is_nil userIdVal then
          Err (TypeError "expects presence to contain 'user_id'")
        else
          match userIdVal with
          | VString userIDStr =>
              match uuid_FromString userIDStr with
              | None => Err (TypeError "expects presence to contain valid user_id")
              | Some _ =>
                  let sidVal := index_or_nil senderMap "session_id" in
                  if is_nil sidVal then
                    Err (TypeError "presence is expected to contain a 'session_id'")
                  else
                    match sidVal with
                    | VString sidStr =>
                        match uuid_FromString sidStr with
                        | None => Err (TypeError "expects a valid 'session_id'")
                        | Some _ =>
                            let usernameVal := index_or_nil senderMap "username" in
                            if is_nil usernameVal then
                              Err (TypeError "presence is expected to contain a 'username'")
                            else
                              match sidVal with
                              | VString username =>
                                  Ok (Some {| UserId := userIDStr;
                                              SessionId := sidStr;
                                              Username := username |})
                              | _ => Err (TypeError "expects a 'username' string")
                              end
                        end
                    | _ => Err (TypeError "expects a 'session_id' string")
                    end
              end
          | _ => Err (TypeError "expects presence to contain 'user_id' string")
          end
    | _ => Err (TypeError "expects sender to be an object")
    end
  else Ok None.

(** The check of a supplied filter against the members of the match.
    The outer [None] is the early [return nil, nil, false].  The test
    [filter != nil] compares an engine value that is never Go's nil, so
    it holds whenever this point is reached. *)
Definition broadcast_members (core : RuntimeJavascriptMatchCore)
    (presenceIDs : option (list PresenceID)) : option (option (list PresenceID)) :=
  match presenceIDs with
  | None => Some None
  | Some ids =>
      match ids with
      | [first] =>
          (* len(presenceIDs) == 1 *)
          if negb (Contains (presenceList core) first) then None
          else Some (Some ids)
      | _ =>
          let actualPresenceIDs := ListPresenceIDs (presenceList core) in
          let ids := reconcile (length ids) ids actualPresenceIDs 0 in
          if (length ids =? 0)%nat then None
          else Some (Some ids)
      end
  end.

(** Argument 4: the reliable flag, [true] unless given. *)
Definition broadcast_reliable (reliableVal : value) : res exception bool :=
  if negb (IsUndefined reliableVal) && negb (IsNull reliableVal)
  then getJsBool reliableVal
  else Ok true.

(** The recipients, the envelope and the reliable flag.  A nil slice
    comes back as the empty list: the callers only take its length. *)
Definition validateBroadcast (core : RuntimeJavascriptMatchCore) (f : list value)
    : res exception (list PresenceID * option Envelope * bool) :=
  let* opCode := getJsInt (Argument f 0) in
  let* dataBytes := broadcast_data (Argument f 1) in
  let* presenceIDs := broadcast_filter (Argument f 2) in
  match presenceIDs with
  | Some [] =>
      (* Filter is empty, there are no requested message targets. *)
      Ok ([], None, false)
  | _ =>
      let* presence := broadcast_sender (Argument f 3) in
      match broadcast_members core presenceIDs with
      | None => Ok ([], None, false)
      | Some presenceIDs =>
          let* reliable := broadcast_reliable (Argument f 4) in
          let msg := {| MatchId := idStr core;
                        Presence := presence;
                        OpCode := opCode;
                        Data := dataBytes;
                        Reliable := reliable |} in
          let presenceIDs :=
            match presenceIDs with
            | None => ListPresenceIDs (presenceList core)
            | Some ids => ids
            end in
          Ok (presenceIDs, Some msg, reliable)
      end
  end.

(** *** The dispatcher handed to the handlers *)

Definition match_stopped : exception := Throw (VString "match stopped").

Definition broadcastMessage (f : list value) (st : State) : res exception value * State :=
  if stopped (rm st) then (Err match_stopped, st)
  else
    match validateBroadcast (rm st) f with
    | Err e => (Err e, st)
    | Ok (presenceIDs, msg, reliable) =>
        if negb (length presenceIDs =? 0)%nat
        then (Ok VUndefined, issue (SendToPresenceIDs presenceIDs msg reliable) st)
        else (Ok VUndefined, st)
    end.

Definition broadcastMessageDeferred (f : list value) (st : State) : res exception value * State :=
  if stopped (rm st) then (Err match_stopped, st)
  else
    match validateBroadcast (rm st) f with
    | Err e => (Err e, st)
    | Ok (presenceIDs, msg, reliable) =>
        if negb (length presenceIDs =? 0)%nat then
          let m := {| dm_PresenceIDs := presenceIDs; dm_Envelope := msg;
                      dm_Reliable := reliable |} in
          let st := issue (DeferMessage m) st in
          match deferMessageFn (rm st) m with
          | Some err =>
              (Err (Throw (VString ("error deferring message broadcast: " +:+ err))), st)
          | None => (Ok VUndefined, st)
          end
        else (Ok VUndefined, st)
    end.

(** The body of the loop over [presencesSlice] in [matchKick]. *)
Definition kick_entry (p : value) : res exception MatchPresence :=
  match p with
  | VObject pMap =>
      let userIdVal := index_or_nil pMap "user_id" in
      if is_nil userIdVal then
        Err (TypeError "expects presence to contain 'user_id'")
      else
        match userIdVal with
        | VString userIDStr =>
            match uuid_FromString userIDStr with
            | None => Err (TypeError "expects presence to contain valid user_id")
            | Some uid =>
                let sidVal := index_or_nil pMap "session_id" in
                if is_nil sidVal then
                  Err (TypeError "presence is expected to contain a 'session_id'")
                else
                  match sidVal with
                  | VString sidStr =>
                      match uuid_FromString sidStr with
                      | None => Err (TypeError "expects a valid 'session_id'")
                      | Some sid =>
                          let nodeVal := index_or_nil pMap "node_id" in
                          if is_nil nodeVal then
                            Err (TypeError "expects presence to contain a 'node_id'")
                          else
                            match nodeVal with
                            | VString node =>
                                Ok {| mp_Node := node; mp_UserID := uid;
                                      mp_SessionID := sid; mp_Username := "" |}
                            | _ => Err (TypeError "expects a 'node_id' string")
                            end
                      end
                  | _ => Err (TypeError "expects a 'session_id' string")
                  end
            end
        | _ => Err (TypeError "expects presence to contain 'user_id' string")
        end
  | _ => Err (TypeError "expects a valid set of presences")
  end.

Definition matchKick (f : list value) (st : State) : res exception value * State :=
  if stopped (rm st) then (Err match_stopped, st)
  else
    let input := Argument f 0 in
    if IsUndefined input || IsNull input then (Ok VUndefined, st)
    else
      match input with
      | VArray presencesSlice =>
          match res_mapM kick_entry presencesSlice with
          | Err e => (Err e, st)
          | Ok presences =>
              (Ok VUndefined, issue (Kick (stream (rm st)) presences) st)
          end
      | _ => (Err (Throw (VString "expects an array of presence objects")), st)
      end.

Definition matchLabelUpdate (f : list value) (st : State) : res exception value * State :=
  if stopped (rm st) then (Err match_stopped, st)
  else
    match getJsString (Argument f 0) with
    | Err e => (Err e, st)
    | Ok input =>
        let st := issue (UpdateMatchLabel (id (rm st)) input) st in
        match registry_UpdateMatchLabel (matchRegistry (rm st)) (id (rm st)) input with
        | Some err =>
            (Err (Throw (VString ("error updating match label: " +:+ err))), st)
        | None =>
            let c := <[__RUNTIME_JAVASCRIPT_CTX_MATCH_LABEL := VString input]> (ctx (rm st)) in
            (Ok VUndefined, {| rm := with_label (rm st) input c; calls := calls st |})
        end
    end.


(** *** [MatchJoinAttempt], [MatchJoin], [MatchLeave], [MatchTerminate] *)

(** The presence object a handler is given for a member. *)
Definition member_presenceObj (userID sessionID : UUID) (username node : string) : value :=
  VObject (<["user_id" := VString (uuid_String userID)]>
           (<["session_id" := VString (uuid_String sessionID)]>
            (<["username" := VString username]>
             (<["node" := VString node]> ∅)))).

(** The context of a join attempt: a copy of the context of the match
    with the candidate's user and session written over it, key by key in
    the order of the source. *)
Definition join_attempt_ctx (core : RuntimeJavascriptMatchCore)
    (userID sessionID : UUID) (username : string) (sessionExpiry : Z)
    (vars : option (gmap string string)) (clientIP clientPort : string)
    : gmap string value :=
  let ctxObj := ctx core in
  let ctxObj := <[__RUNTIME_JAVASCRIPT_CTX_USER_ID := VString (uuid_String userID)]> ctxObj in
  let ctxObj := <[__RUNTIME_JAVASCRIPT_CTX_USERNAME := VString username]> ctxObj in
  let ctxObj :=
    match vars with
    | Some vars => <[__RUNTIME_JAVASCRIPT_CTX_VARS := VObject (VString <$> vars)]> ctxObj
    | None => ctxObj
    end in
  let ctxObj := <[__RUNTIME_JAVASCRIPT_CTX_USER_SESSION_EXP := VInt sessionExpiry]> ctxObj in
  let ctxObj := <[__RUNTIME_JAVASCRIPT_CTX_SESSION_ID := VString (uuid_String sessionID)]> ctxObj in
  let ctxObj :=
    if negb (bool_decide (clientIP = ""))
    then <[__RUNTIME_JAVASCRIPT_CTX_CLIENT_IP := VString clientIP]> ctxObj
    else ctxObj in
  let ctxObj :=
    if negb (bool_decide (clientPort = ""))
    then <[__RUNTIME_JAVASCRIPT_CTX_CLIENT_PORT := VString clientPort]> ctxObj
    else ctxObj in
  ctxObj.

(** What [MatchJoinAttempt] makes of the handler's answer: the new state,
    whether the candidate is let in, and the message for a candidate that
    is not. *)
Definition join_attempt_result (r : res exception value)
    : res error (option value * bool * string) :=
  match r with
  | Err err => Err (HandlerError err)
  | Ok retVal =>
      match retVal with
      | VObject retMap =>
          match retMap !! "accept" with
          | None => Err (errors_New "match_join_attempt return value has an 'accept' property")
          | Some (VBool allow) =>
              let* rejectMsg :=
                if negb allow then
                  match retMap !! "reject_msg" with
                  | None => Ok ""
                  | Some (VString rejectMsg) => Ok rejectMsg
                  | Some _ => Err (errors_New "match_join_attempt 'reject_msg' property must be a string")
                  end
                else Ok "" in
              match retMap !! "state" with
              | None => Err (errors_New "match_join_attempt is expected to return an object with 'state' property")
              | Some newState => Ok (Export newState, allow, rejectMsg)
              end
          | Some _ => Err (errors_New "match_join_attempt 'accept' property must be a boolean")
          end
      | _ => Err (errors_New "match_join_attempt is expected to return an object with 'state' and 'accept' properties")
      end
  end.

Definition MatchJoinAttempt (core : RuntimeJavascriptMatchCore) (tick : Z)
    (state : option value) (userID sessionID : UUID) (username : string)
    (sessionExpiry : Z) (vars : option (gmap string string))
    (clientIP clientPort node : string) (metadata : gmap string string)
    : res error (option value * bool * string) :=
  let presenceObj := member_presenceObj userID sessionID username node in
  let ctxObj :=
    join_attempt_ctx core userID sessionID username sessionExpiry vars clientIP clientPort in
  let args := [VObject ctxObj; loggerModule core; nakamaModule core; dispatcher core;
               VInt tick; ToValue state; presenceObj; VObject (VString <$> metadata)] in
  join_attempt_result (joinAttemptFn core args).

(** [MatchJoin], [MatchLeave] and [MatchTerminate] read the handler's
    answer the same way, each under its own name: an object with a [state]
    property, and nothing else will do. *)
Definition state_result (fn : string) (r : res exception value) : res error (option value) :=
  match r with
  | Err err => Err (HandlerError err)
  | Ok retVal =>
      match retVal with
      | VObject retMap =>
          match retMap !! "state" with
          | None => Err (errors_New (fn +:+ " is expected to return an object with 'state' property"))
          | Some newState => Ok (Export newState)
          end
      | _ => Err (errors_New (fn +:+ " is expected to return an object with 'state' property"))
      end
  end.

Definition presences_arg (ps : list MatchPresence) : value :=
  VArray ((fun p => member_presenceObj (mp_UserID p) (mp_SessionID p)
                      (mp_Username p) (mp_Node p)) <$> ps).

Definition MatchJoin (core : RuntimeJavascriptMatchCore) (tick : Z)
    (state : option value) (joins : list MatchPresence) : res error (option value) :=
  let args := [VObject (ctx core); loggerModule core; nakamaModule core; dispatcher core;
               VInt tick; ToValue state; presences_arg joins] in
  state_result "match_join" (joinFn core args).

Definition MatchLeave (core : RuntimeJavascriptMatchCore) (tick : Z)
    (state : option value) (leaves : list MatchPresence) : res error (option value) :=
  let args := [VObject (ctx core); loggerModule core; nakamaModule core; dispatcher core;
               VInt tick; ToValue state; presences_arg leaves] in
  state_result "match_leave" (leaveFn core args).

Definition MatchTerminate (core : RuntimeJavascriptMatchCore) (tick : Z)
    (state : option value) (graceSeconds : Z) : res error (option value) :=
  let args := [VObject (ctx core); loggerModule core; nakamaModule core; dispatcher core;
               VInt tick; ToValue state; VInt graceSeconds] in
  state_result "match_terminate" (terminateFn core args).

(** * Properties *)

(** ** Base64: decoding undoes encoding *)


(** Goals about quotients and remainders by constants: only the integers
    and the facts about them matter. *)
Ltac euclid :=
  repeat match goal with
         | x : ?T |- _ =>
             lazymatch T with
             | Z => fail
             | _ => lazymatch type of T with
                    | Prop => fail
                    | _ => clear x
                    end
             end
         end;
  Z.div_mod_to_equations; lia.

Lemma byte_val_range (c : ascii) : 0 <= base64.byte_val c < 256.
Proof.
  unfold base64.byte_val. pose proof (N_ascii_bounded c). lia.
Qed.

Lemma land_63 (x : Z) : Z.land x 63 = x mod 64.
Proof. change 63 with (Z.ones 6). now rewrite Z.land_ones by lia. Qed.

Lemma land_255 (x : Z) : Z.land x 255 = x mod 256.
Proof. change 255 with (Z.ones 8). now rewrite Z.land_ones by lia. Qed.

Lemma to_byte_eq (x : Z) (c : ascii) : x mod 256 = base64.byte_val c -> base64.to_byte x = c.
Proof.
  intros H. unfold base64.to_byte. rewrite land_255, H. unfold base64.byte_val.
  rewrite N2Z.id. apply ascii_N_embedding.
Qed.

(** Two numbers with no bit in common are joined by [Z.lor] as by a sum. *)
Lemma lor_disjoint (a b k : Z) :
  0 <= k -> a mod 2 ^ k = 0 -> 0 <= b < 2 ^ k -> Z.lor a b = a + b.
Proof.
  intros Hk Ha Hb. symmetry. apply Z.add_nocarry_lor.
  apply Z.bits_inj'. intros n Hn.
  rewrite Z.land_spec, Z.bits_0.
  destruct (Z.lt_ge_cases n k) as [Hlt | Hge].
  - rewrite <- (Z.mod_pow2_bits_low a k n) by lia.
    rewrite Ha, Z.bits_0. reflexivity.
  - rewrite <- (Z.mod_small b (2 ^ k)) by lia.
    rewrite Z.mod_pow2_bits_high by lia. apply andb_false_r.
Qed.

(** The word built from three bytes. *)
Lemma word_of_bytes (b0 b1 b2 : Z) :
  0 <= b1 < 256 -> 0 <= b2 < 256 ->
  Z.lor (Z.lor (Z.shiftl b0 16) (Z.shiftl b1 8)) b2
  = b0 * 65536 + b1 * 256 + b2.
Proof.
  intros H1 H2. rewrite !Z.shiftl_mul_pow2 by lia.
  change (2 ^ 16) with 65536. change (2 ^ 8) with 256.
  rewrite (lor_disjoint (b0 * 65536) (b1 * 256) 16); [| lia | | ].
  - apply (lor_disjoint _ b2 8); [lia | | lia].
    change (2 ^ 8) with 256. euclid.
  - change (2 ^ 16) with 65536. euclid.
  - change (2 ^ 16) with 65536. lia.
Qed.

(** The word built from four 6-bit digits. *)
Lemma assemble_sum (d0 d1 d2 d3 : Z) :
  0 <= d1 < 64 -> 0 <= d2 < 64 -> 0 <= d3 < 64 ->
  base64.assemble d0 d1 d2 d3 = d0 * 262144 + d1 * 4096 + d2 * 64 + d3.
Proof.
  intros H1 H2 H3. unfold base64.assemble. rewrite !Z.shiftl_mul_pow2 by lia.
  change (2 ^ 18) with 262144. change (2 ^ 12) with 4096. change (2 ^ 6) with 64.
  rewrite (lor_disjoint (d0 * 262144) (d1 * 4096) 18); [| lia | | ].
  - rewrite (lor_disjoint _ (d2 * 64) 12); [| lia | | ].
    + apply (lor_disjoint _ d3 6); [lia | | lia].
      change (2 ^ 6) with 64. euclid.
    + change (2 ^ 12) with 4096. euclid.
    + change (2 ^ 12) with 4096. lia.
  - change (2 ^ 18) with 262144. euclid.
  - change (2 ^ 18) with 262144. lia.
Qed.

(** Cutting a 24-bit word into digits and joining them again. *)
Lemma assemble_digits (val : Z) :
  0 <= val < 16777216 ->
  base64.assemble (Z.land (Z.shiftr val 18) 63) (Z.land (Z.shiftr val 12) 63)
           (Z.land (Z.shiftr val 6) 63) (Z.land val 63) = val.
Proof.
  intros Hval. rewrite !land_63, !Z.shiftr_div_pow2 by lia.
  change (2 ^ 18) with 262144. change (2 ^ 12) with 4096. change (2 ^ 6) with 64.
  rewrite assemble_sum by (apply Z.mod_pos_bound; lia).
  euclid.
Qed.

Lemma quantum_bytes_word (b0 b1 b2 : ascii) :
  base64.quantum_bytes (base64.byte_val b0 * 65536 + base64.byte_val b1 * 256 + base64.byte_val b2)
  = [b0; b1; b2].
Proof.
  pose proof (byte_val_range b0). pose proof (byte_val_range b1).
  pose proof (byte_val_range b2).
  unfold base64.quantum_bytes. rewrite !Z.shiftr_div_pow2 by lia.
  change (2 ^ 16) with 65536. change (2 ^ 8) with 256.
  f_equal; [| f_equal; [| f_equal]]; apply to_byte_eq;
    euclid.
Qed.

Lemma digits_ok : forallb digit_ok (seq 0 64) = true.
Proof. vm_compute. reflexivity. Qed.

Lemma digit_spec (v : Z) :
  0 <= v < 64 ->
  base64.decodeMap base64.URLEncoding (base64.encode_at base64.URLEncoding v) = Some v
  /\ base64.is_newline (base64.encode_at base64.URLEncoding v) = false.
Proof.
  intros Hv. pose proof digits_ok as H.
  rewrite forallb_forall in H.
  specialize (H (Z.to_nat v)).
  assert (Hin : In (Z.to_nat v) (seq 0 64)) by (apply in_seq; lia).
  specialize (H Hin). unfold digit_ok in H.
  rewrite Z2Nat.id in H by lia.
  apply andb_prop in H as [H1 H2].
  destruct (base64.decodeMap base64.URLEncoding (base64.encode_at base64.URLEncoding v)) as [d |]; [| discriminate].
  apply Z.eqb_eq in H1. subst d. split; [reflexivity |].
  now apply negb_true_iff in H2.
Qed.

Lemma digit_range (x : Z) : 0 <= Z.land x 63 < 64.
Proof. rewrite land_63. apply Z.mod_pos_bound. lia. Qed.

Lemma decodeMap_digit (x : Z) :
  base64.decodeMap base64.URLEncoding (base64.encode_at base64.URLEncoding (Z.land x 63)) = Some (Z.land x 63).
Proof. apply digit_spec, digit_range. Qed.

Lemma newline_digit (x : Z) :
  base64.is_newline (base64.encode_at base64.URLEncoding (Z.land x 63)) = false.
Proof. apply digit_spec, digit_range. Qed.

(** Lists taken three elements at a time. *)
Lemma list_ind3 {A} (P : list A -> Prop) :
  P [] -> (forall a, P [a]) -> (forall a b, P [a; b]) ->
  (forall a b c l, P l -> P (a :: b :: c :: l)) ->
  forall l, P l.
Proof.
  intros H0 H1 H2 H3 l.
  assert (H : P l /\ (forall a, P (a :: l)) /\ (forall a b, P (a :: b :: l))).
  { induction l as [| x l IH]; [auto |].
    destruct IH as (IH0 & IH1 & IH2). auto. }
  apply H.
Qed.

Lemma decodeMap_pad : base64.decodeMap base64.URLEncoding base64.StdPadding = None.
Proof. vm_compute. reflexivity. Qed.

(** One byte left over: two digits and two padding characters. *)
Lemma decode_tail1 (b0 : ascii) :
  base64.decodeQuanta base64.URLEncoding (base64.Encode base64.URLEncoding [b0]) = Some [b0].
Proof.
  pose proof (byte_val_range b0) as H0.
  cbn [base64.Encode base64.pad base64.padChar base64.URLEncoding app].
  cbn [base64.decodeQuanta]. rewrite !decodeMap_digit, decodeMap_pad.
  cbn [base64.is_pad base64.padChar base64.URLEncoding andb]. rewrite Ascii.eqb_refl. cbn [andb].
  rewrite Z.shiftl_mul_pow2 by lia. change (2 ^ 16) with 65536.
  rewrite !land_63, !Z.shiftr_div_pow2 by lia.
  change (2 ^ 18) with 262144. change (2 ^ 12) with 4096.
  rewrite assemble_sum by (try apply Z.mod_pos_bound; lia).
  unfold base64.quantum_bytes. cbn [take]. do 2 f_equal. apply to_byte_eq.
  rewrite Z.shiftr_div_pow2 by lia. change (2 ^ 16) with 65536.
  euclid.
Qed.

(** Two bytes left over: three digits and one padding character. *)
Lemma decode_tail2 (b0 b1 : ascii) :
  base64.decodeQuanta base64.URLEncoding (base64.Encode base64.URLEncoding [b0; b1]) = Some [b0; b1].
Proof.
  pose proof (byte_val_range b0) as H0. pose proof (byte_val_range b1) as H1.
  cbn [base64.Encode base64.pad base64.padChar base64.URLEncoding app].
  cbn [base64.decodeQuanta]. rewrite !decodeMap_digit, decodeMap_pad.
  cbn [base64.is_pad base64.padChar base64.URLEncoding]. rewrite Ascii.eqb_refl.
  replace (Z.lor (Z.shiftl (base64.byte_val b0) 16) (Z.shiftl (base64.byte_val b1) 8))
    with (base64.byte_val b0 * 65536 + base64.byte_val b1 * 256).
  2:{ rewrite !Z.shiftl_mul_pow2 by lia. symmetry.
      apply (lor_disjoint _ _ 16); [lia | |];
        change (2 ^ 16) with 65536; change (2 ^ 8) with 256;
        [euclid | lia]. }
  rewrite !land_63, !Z.shiftr_div_pow2 by lia.
  change (2 ^ 18) with 262144. change (2 ^ 12) with 4096. change (2 ^ 6) with 64.
  rewrite assemble_sum by (try apply Z.mod_pos_bound; lia).
  unfold base64.quantum_bytes. cbn [take]. f_equal.
  f_equal; [| f_equal]; apply to_byte_eq;
    rewrite Z.shiftr_div_pow2 by lia;
    change (2 ^ 16) with 65536; change (2 ^ 8) with 256;
    euclid.
Qed.

(** A full group of three bytes: four digits, and the rest follows. *)
Lemma decode_quantum (b0 b1 b2 : ascii) (rest : list ascii) :
  base64.decodeQuanta base64.URLEncoding (base64.Encode base64.URLEncoding (b0 :: b1 :: b2 :: rest))
  = match base64.decodeQuanta base64.URLEncoding (base64.Encode base64.URLEncoding rest) with
    | Some out => Some (b0 :: b1 :: b2 :: out)
    | None => None
    end.
Proof.
  pose proof (byte_val_range b0) as H0. pose proof (byte_val_range b1) as H1.
  pose proof (byte_val_range b2) as H2.
  cbn [base64.Encode]. cbn [base64.decodeQuanta]. rewrite !decodeMap_digit.
  rewrite word_of_bytes by lia.
  rewrite assemble_digits by lia.
  rewrite quantum_bytes_word. reflexivity.
Qed.

Lemma decodeQuanta_Encode (src : list ascii) :
  base64.decodeQuanta base64.URLEncoding (base64.Encode base64.URLEncoding src) = Some src.
Proof.
  induction src as [| b0 | b0 b1 | b0 b1 b2 rest IH] using list_ind3.
  - reflexivity.
  - apply decode_tail1.
  - apply decode_tail2.
  - rewrite decode_quantum, IH. reflexivity.
Qed.

(** The encoder writes no line break, so the decoder skips nothing. *)
Lemma Encode_no_newline (src : list ascii) :
  filter (fun c => base64.is_newline c = false) (base64.Encode base64.URLEncoding src)
  = base64.Encode base64.URLEncoding src.
Proof.
  induction src as [| b0 | b0 b1 | b0 b1 b2 rest IH] using list_ind3.
  - reflexivity.
  - cbn [base64.Encode base64.pad base64.padChar base64.URLEncoding app].
    rewrite !filter_cons, !newline_digit. reflexivity.
  - cbn [base64.Encode base64.pad base64.padChar base64.URLEncoding app].
    rewrite !filter_cons, !newline_digit. reflexivity.
  - cbn [base64.Encode]. rewrite !filter_cons, !newline_digit.
    rewrite !decide_True by reflexivity. rewrite IH. reflexivity.
Qed.

Lemma DecodeString_EncodeToString (s : string) :
  base64.DecodeString base64.URLEncoding (base64.EncodeToString base64.URLEncoding s) = Some s.
Proof.
  unfold base64.DecodeString, base64.EncodeToString.
  rewrite list_ascii_of_string_of_list_ascii.
  rewrite Encode_no_newline, decodeQuanta_Encode.
  rewrite string_of_list_ascii_of_string. reflexivity.
Qed.


(** C8. For every string [s], [base64UrlDecode] with padding enabled
    applied to the result of [base64UrlEncode] with padding enabled
    returns [s]; padding is enabled when the second argument is left out
    and when it is [true]. *)
Theorem base64Url_roundtrip (s : string) :
  exists e : string,
    base64UrlEncode [VString s] = Ok (VString e)
    /\ base64UrlEncode [VString s; VBool true] = Ok (VString e)
    /\ base64UrlDecode [VString e] = Ok (VString s)
    /\ base64UrlDecode [VString e; VBool true] = Ok (VString s).
Proof.
  exists (base64.EncodeToString base64.URLEncoding s).
  unfold base64UrlEncode, base64UrlDecode, padding_arg, Argument.
  cbn [nth getString getBool res_bind IsUndefined negb].
  rewrite DecodeString_EncodeToString. auto.
Qed.

(** The round trip on a string with characters outside the URL-safe
    alphabet, and on the empty string. *)
Example base64Url_roundtrip_example :
  base64UrlEncode [VString "hi?>"] = Ok (VString "aGk_Pg==")
  /\ base64UrlDecode [VString "aGk_Pg=="] = Ok (VString "hi?>")
  /\ base64UrlEncode [VString ""] = Ok (VString "")
  /\ base64UrlDecode [VString ""] = Ok (VString "").
Proof. vm_compute. auto. Qed.

(** ** The reconciliation loop *)

Local Open Scope nat_scope.
Local Open Scope list_scope.

Section swap_remove_facts.
Context {A : Type}.
Implicit Types (l : list A) (i : nat).

(** On a slice with last element [y]: either slot [i] takes [y], or
    slot [i] is the last one and simply goes. *)
Lemma swap_remove_snoc l (y : A) i :
  i ≤ length l →
  swap_remove i (l ++ [y]) = if decide (i < length l) then <[i := y]> l else l.
Proof.
  intros Hi. unfold swap_remove.
  rewrite length_app. cbn [length].
  replace (length l + 1 - 1)%nat with (length l) by lia.
  rewrite list_lookup_middle by reflexivity.
  case_decide as Hlt.
  - rewrite insert_app_l by lia.
    apply take_app_length'. by rewrite length_insert.
  - assert (i = length l) as -> by lia.
    rewrite list_insert_id by (by apply list_lookup_middle).
    by apply take_app_length'.
Qed.

Lemma swap_remove_delete l i :
  i < length l → swap_remove i l ≡ₚ delete i l.
Proof.
  intros Hi. destruct l as [| x l0] using rev_ind; [cbn in Hi; lia |].
  clear IHl0. rewrite length_app in Hi. cbn [length] in Hi.
  rewrite swap_remove_snoc by lia.
  rewrite delete_take_drop. case_decide as Hlt.
  - rewrite insert_take_drop by lia.
    rewrite take_app_le by lia.
    rewrite drop_app_le by lia.
    rewrite <- Permutation_middle.
    rewrite (Permutation_app_comm (drop (S i) l0) [x]). cbn [app].
    by rewrite <- Permutation_middle.
  - assert (i = length l0) as -> by lia.
    rewrite take_app_length' by reflexivity.
    rewrite drop_ge by (rewrite length_app; cbn; lia).
    by rewrite app_nil_r.
Qed.

Lemma swap_remove_Permutation l i (x : A) :
  l !! i = Some x → l ≡ₚ x :: swap_remove i l.
Proof.
  intros Hx. rewrite swap_remove_delete by (by eapply lookup_lt_Some).
  by apply delete_Permutation.
Qed.

Lemma swap_remove_length l i :
  i < length l → length (swap_remove i l) = (length l - 1)%nat.
Proof.
  intros Hi. rewrite swap_remove_delete by done.
  apply length_delete, lookup_lt_is_Some. done.
Qed.

Lemma swap_remove_take l i :
  i < length l → take i (swap_remove i l) = take i l.
Proof.
  intros Hi. destruct l as [| x l0] using rev_ind; [cbn in Hi; lia |].
  clear IHl0. rewrite length_app in Hi. cbn [length] in Hi.
  rewrite swap_remove_snoc by lia. case_decide as Hlt.
  - rewrite take_insert. rewrite decide_False by lia.
    by rewrite take_app_le by lia.
  - by rewrite take_app_le by lia.
Qed.
End swap_remove_facts.

Lemma same_presence_eq (p q : PresenceID) : same_presence p q = true ↔ p = q.
Proof.
  unfold same_presence. rewrite andb_true_iff, !bool_decide_eq_true.
  destruct p, q; cbn. split; [intros [-> ->]; done | intros [= -> ->]; done].
Qed.

Lemma find_actual_Some (p : PresenceID) (actual : list PresenceID) (j0 j : nat) :
  find_actual p actual j0 = Some j → j0 ≤ j ∧ actual !! (j - j0)%nat = Some p.
Proof.
  revert j0. induction actual as [| a tl IH]; intros j0; cbn [find_actual]; [done |].
  destruct (same_presence p a) eqn:Hsame.
  - intros [= <-]. apply same_presence_eq in Hsame as ->.
    rewrite Nat.sub_diag. done.
  - intros H. apply IH in H as [Hle Hl]. split; [lia |].
    replace (j - j0)%nat with (S (j - S j0)) by lia. done.
Qed.

Lemma find_actual_None (p : PresenceID) (actual : list PresenceID) (j0 : nat) :
  find_actual p actual j0 = None → p ∉ actual.
Proof.
  revert j0. induction actual as [| a tl IH]; intros j0; cbn [find_actual].
  - intros _. apply not_elem_of_nil.
  - destruct (same_presence p a) eqn:Hsame; [done |].
    intros H. apply not_elem_of_cons. split; [| by eapply IH].
    intros ->. assert (same_presence a a = true) by (by apply same_presence_eq).
    congruence.
Qed.

Lemma reconcile_inv_exit ids dir presenceIDs actual i :
  reconcile_inv ids dir presenceIDs actual i → length presenceIDs ≤ i →
  (∃ rest, presenceIDs ++ rest ≡ₚ dir)
  ∧ ∀ q, q ∈ presenceIDs ↔ q ∈ ids ∧ q ∈ dir.
Proof.
  intros [Hi Hl Hr Hm] Hge. rewrite take_ge in Hl by done.
  split; [by exists actual |].
  intros q. split.
  - intros Hq. split; [by apply Hr |].
    rewrite <- Hl. apply elem_of_app. by left.
  - intros [? ?]. by apply Hm.
Qed.

Lemma reconcile_sound ids dir (turns : nat) :
  ∀ presenceIDs actual i,
    reconcile_inv ids dir presenceIDs actual i →
    (length presenceIDs - i ≤ turns)%nat →
    (∃ rest, reconcile turns presenceIDs actual i ++ rest ≡ₚ dir)
    ∧ ∀ q, q ∈ reconcile turns presenceIDs actual i ↔ q ∈ ids ∧ q ∈ dir.
Proof.
  induction turns as [| turns IH]; intros presenceIDs actual i Hinv Hturns.
  - cbn [reconcile]. eapply reconcile_inv_exit; [done | lia].
  - cbn [reconcile]. destruct (presenceIDs !! i) as [p |] eqn:Hp.
    2:{ apply lookup_ge_None in Hp. by eapply reconcile_inv_exit. }
    pose proof (lookup_lt_Some _ _ _ Hp) as Hlt.
    destruct Hinv as [Hi Hl Hr Hm].
    destruct (find_actual p actual 0) as [j |] eqn:Hfind.
    + apply find_actual_Some in Hfind as [_ Hj]. rewrite Nat.sub_0_r in Hj.
      apply IH; [| lia]. split; [lia | | done | done].
      rewrite (take_S_r _ _ _ Hp), <- Hl, <- app_assoc. cbn [app].
      by rewrite <- (swap_remove_Permutation _ _ _ Hj).
    + apply find_actual_None in Hfind.
      apply IH; [| rewrite swap_remove_length by done; lia].
      split.
      * rewrite swap_remove_length by done. lia.
      * by rewrite swap_remove_take.
      * intros q Hq. apply Hr.
        rewrite (swap_remove_Permutation _ _ _ Hp). by apply elem_of_cons; right.
      * intros q Hq Hd. specialize (Hm q Hq Hd).
        rewrite (swap_remove_Permutation _ _ _ Hp) in Hm.
        apply elem_of_cons in Hm as [-> | Hm]; [| done].
        rewrite <- Hl in Hd. apply elem_of_app in Hd as [Hd | Hd]; [| done].
        rewrite <- swap_remove_take in Hd by done.
        apply elem_of_take in Hd as (k & Hk & _).
        apply list_elem_of_lookup. eauto.
Qed.

Lemma reconcile_spec (ids dir : list PresenceID) :
  (∃ rest, reconcile (length ids) ids dir 0 ++ rest ≡ₚ dir)
  ∧ ∀ q, q ∈ reconcile (length ids) ids dir 0 ↔ q ∈ ids ∧ q ∈ dir.
Proof.
  apply reconcile_sound; [| lia].
  split; [lia | done | done | done].
Qed.

Lemma reconcile_NoDup (ids dir : list PresenceID) :
  NoDup dir → NoDup (reconcile (length ids) ids dir 0).
Proof.
  intros Hnd. destruct (reconcile_spec ids dir) as [[rest Hrest] _].
  rewrite <- Hrest in Hnd. by apply NoDup_app in Hnd as [? _].
Qed.

(** The count of turns given to the loop is never what stops it: with any
    larger count the result is the same. *)
Lemma reconcile_turns (turns extra : nat) :
  ∀ presenceIDs actual i,
    (length presenceIDs - i ≤ turns)%nat →
    reconcile (turns + extra) presenceIDs actual i = reconcile turns presenceIDs actual i.
Proof.
  induction turns as [| turns IH]; intros presenceIDs actual i Hturns.
  - cbn [Nat.add]. destruct extra as [| extra]; [done |]. cbn [reconcile].
    rewrite (proj2 (lookup_ge_None presenceIDs i)) by lia. done.
  - cbn [Nat.add reconcile]. destruct (presenceIDs !! i) as [p |] eqn:Hp; [| done].
    pose proof (lookup_lt_Some _ _ _ Hp) as Hlt.
    destruct (find_actual p actual 0); apply IH; [lia |].
    rewrite swap_remove_length by done. lia.
Qed.

(** ** The lifecycle calls *)

(** Draining [n] messages that are already queued takes them off in order
    and never waits; what the transport adds meanwhile queues up behind. *)
Lemma drain_queued (env : Producers) (n : nat) :
  forall (i : nat) (front back : chan) (inputs : list value),
    length front = n ->
    drain env n i (front ++ back) inputs
    = Some (inputs ++ (msgObj <$> front),
            back ++ concat (before_receive env <$> seq i n)).
Proof.
  induction n as [| n IH]; intros i front back inputs Hlen.
  - destruct front; [| discriminate]. cbn. by rewrite !app_nil_r.
  - destruct front as [| msg front]; [discriminate |].
    injection Hlen as Hlen. cbn [drain].
    rewrite <- app_assoc. cbn [app].
    rewrite (IH (S i) front (back ++ before_receive env i) _ Hlen).
    cbn [seq fmap list_fmap concat]. by rewrite <- !app_assoc.
Qed.

Lemma MatchLoop_eq (core : RuntimeJavascriptMatchCore) (tick : Z)
    (state : option value) (inputCh : chan) (env : Producers) :
  MatchLoop core tick state inputCh env
  = Some (loop_result (loopFn core (loop_args core tick state (msgObj <$> inputCh))),
          concat (before_receive env <$> seq 1 (length inputCh)) ++ during_handler env).
Proof.
  unfold MatchLoop.
  rewrite <- (app_nil_r inputCh) at 2.
  rewrite (drain_queued env (length inputCh) 1 inputCh [] [] eq_refl).
  reflexivity.
Qed.

(** C6. Whatever is queued when [MatchLoop] is called, the call takes
    exactly those messages off the channel, never waiting, and hands them
    to the handler in arrival order; the messages the transport queues
    after the length was read, while the channel is drained or while the
    handler runs, all stay on the channel, in order, and they are what
    the next call hands to its handler. *)
Theorem MatchLoop_drains_snapshot
    (core : RuntimeJavascriptMatchCore) (tick : Z) (state : option value)
    (inputCh : chan) (env : Producers)
    (core' : RuntimeJavascriptMatchCore) (tick' : Z) (state' : option value)
    (env' : Producers) :
  let later :=
    concat (before_receive env <$> seq 1 (length inputCh)) ++ during_handler env in
  MatchLoop core tick state inputCh env
  = Some (loop_result (loopFn core (loop_args core tick state (msgObj <$> inputCh))),
          later)
  /\ MatchLoop core' tick' state' later env'
     = Some (loop_result (loopFn core' (loop_args core' tick' state' (msgObj <$> later))),
             concat (before_receive env' <$> seq 1 (length later)) ++ during_handler env').
Proof.
  intros later. split; apply MatchLoop_eq.
Qed.

(** C7. When the handler of [MatchLoop] returns [null] or [undefined], the
    call returns a nil state and no error; when it returns anything else
    that is not an object, or an object without [state], the call fails
    with the protocol violation of [MatchLoop]. *)
Theorem MatchLoop_null_is_noop
    (core : RuntimeJavascriptMatchCore) (tick : Z) (state : option value)
    (inputCh : chan) (env : Producers) (retVal : value) :
  loopFn core (loop_args core tick state (msgObj <$> inputCh)) = Ok retVal ->
  exists (r : res error (option value)) (inputCh' : chan),
    MatchLoop core tick state inputCh env = Some (r, inputCh')
    /\ (is_nil retVal = true -> r = Ok None)
    /\ (is_nil retVal = false -> is_object retVal = false ->
        exists e, r = Err e /\ LoopProtocolViolation e)
    /\ (forall retMap, retVal = VObject retMap -> retMap !! "state" = None ->
        exists e, r = Err e /\ LoopProtocolViolation e).
Proof.
  intros Hret. eexists _, _. split; [apply MatchLoop_eq |].
  rewrite Hret. unfold loop_result, LoopProtocolViolation, is_nil.
  split; [| split].
  - intros Hnil. rewrite orb_comm, Hnil. reflexivity.
  - intros Hnil Hobj. rewrite orb_comm, Hnil.
    destruct retVal; try discriminate; eauto.
  - intros retMap -> Hstate. cbn. rewrite Hstate. eauto.
Qed.

Lemma init_result_Ok (retVal : value) :
  is_Ok (init_result retVal)
  <-> has_tick_rate retVal = true /\ has_state retVal = true /\ label_fits retVal = true.
Proof.
  unfold init_result, has_tick_rate, has_state, label_fits.
  destruct retVal as [| | | | | | | retMap]; cbn; try (split; [intros [] | intros (? & ? & ?); discriminate]).
  destruct (retMap !! "tick_rate") as [[| | | rate | | | |] |]; cbn;
    try (split; [intros [] | intros (? & ? & ?); discriminate]).
  assert (Hrange : ((rate <? 1) || (rate >? 30))%Z = negb ((1 <=? rate)%Z && (rate <=? 30)%Z)).
  { destruct (Z.ltb_spec rate 1), (Z.leb_spec 1 rate), (Z.leb_spec rate 30);
      rewrite ?Z.gtb_ltb; destruct (Z.ltb_spec 30 rate); cbn; try reflexivity; lia. }
  rewrite Hrange. destruct ((1 <=? rate)%Z && (rate <=? 30)%Z); cbn;
    [| split; [intros [] | intros (? & ? & ?); discriminate]].
  destruct (retMap !! "label") as [[| | | | | lbl | |] |];
    destruct (retMap !! "state") as [st |]; cbn;
    (split;
     [ intros H; try contradiction; repeat split; try reflexivity;
       try (apply bool_decide_eq_true; eexists; reflexivity)
     | intros (_ & H2 & H3); try discriminate; try exact I;
       try (apply bool_decide_eq_true in H2; destruct H2; discriminate) ]).
Qed.

Lemma init_result_tick_rate (retVal : value) :
  is_object retVal = true -> has_tick_rate retVal = false ->
  exists e, init_result retVal = Err e /\ ConfigurationError e.
Proof.
  unfold init_result, has_tick_rate, ConfigurationError.
  destruct retVal as [| | | | | | | retMap]; try discriminate. intros _.
  destruct (retMap !! "tick_rate") as [[| | | rate | | | |] |]; cbn; eauto.
  intros Hr.
  assert (Hrange : ((rate <? 1) || (rate >? 30))%Z = true).
  { rewrite Z.gtb_ltb. apply andb_false_iff in Hr as [Hr | Hr].
    - apply Z.leb_gt in Hr. apply orb_true_iff. left. apply Z.ltb_lt. lia.
    - apply Z.leb_gt in Hr. apply orb_true_iff. right. apply Z.ltb_lt. lia. }
  rewrite Hrange. eauto.
Qed.

(** C3, amended. [MatchInit] succeeds exactly when the handler's answer
    carries a [tick_rate] that is an integer between 1 and 30, a [state]
    property, and a [label] that, when present, is a string; it then
    reports that tick rate and records it in the context.  An answer
    object whose [tick_rate] is missing, not an integer or out of range
    (0, 31, the string "5", none at all) fails with a configuration error
    and leaves the core as it was. *)
Theorem MatchInit_succeeds_iff
    (core : RuntimeJavascriptMatchCore) (pl : MatchPresenceList)
    (dfn : DeferredMessage -> option string) (params : gmap string value)
    (retVal : value) :
  initFn core (init_args core params) = Ok retVal ->
  (is_Ok (fst (MatchInit core pl dfn params))
   <-> has_tick_rate retVal = true /\ has_state retVal = true /\ label_fits retVal = true)
  /\ (forall state rate core',
        MatchInit core pl dfn params = (Ok (state, rate), core') ->
        (1 <= rate <= 30)%Z
        /\ ctx core' !! __RUNTIME_JAVASCRIPT_CTX_MATCH_TICK_RATE = Some (VInt rate))
  /\ (is_object retVal = true -> has_tick_rate retVal = false ->
      exists e, MatchInit core pl dfn params = (Err e, core) /\ ConfigurationError e).
Proof.
  intros Hret. unfold MatchInit. fold (init_args core params).
  rewrite Hret. split; [| split].
  - rewrite <- init_result_Ok.
    destruct (init_result retVal) as [[[state rate] lbl] | e]; cbn; tauto.
  - intros state rate core' H.
    pose proof (init_result_Ok retVal) as Hok.
    destruct (init_result retVal) as [[[state0 rate0] lbl] | e] eqn:Hres; [| discriminate].
    injection H as <- <- <-. split.
    + destruct Hok as [Hok _]. destruct (Hok I) as (Hr & _ & _).
      unfold init_result, has_tick_rate in Hres, Hr.
      destruct retVal as [| | | | | | | retMap]; try discriminate.
      destruct (retMap !! "tick_rate") as [[| | | r | | | |] |]; try discriminate.
      apply andb_true_iff in Hr as [H1 H2].
      apply Z.leb_le in H1, H2.
      destruct ((r <? 1) || (r >? 30))%Z; [discriminate |].
      destruct (retMap !! "label") as [[| | | | | ? | |] |]; cbn in Hres; try discriminate;
        destruct (retMap !! "state"); cbn in Hres; try discriminate;
        injection Hres as _ <- _; lia.
    + cbn. apply lookup_insert_eq.
  - intros Hobj Hr. destruct (init_result_tick_rate retVal Hobj Hr) as (e & -> & He).
    eauto.
Qed.

(** C1. Once the match is stopped, [broadcastMessage],
    [broadcastMessageDeferred], [matchKick] and [matchLabelUpdate] all
    throw "match stopped" at once: the core is as before and no call has
    left it, so nothing is sent, deferred, kicked or relabelled, whatever
    the arguments. *)
Theorem stopped_match_rejects_calls (f : list value) (st : State) :
  stopped (rm st) = true ->
  broadcastMessage f st = (Err match_stopped, st)
  /\ broadcastMessageDeferred f st = (Err match_stopped, st)
  /\ matchKick f st = (Err match_stopped, st)
  /\ matchLabelUpdate f st = (Err match_stopped, st).
Proof.
  intros Hstopped.
  unfold broadcastMessage, broadcastMessageDeferred, matchKick, matchLabelUpdate.
  rewrite Hstopped. auto.
Qed.


(** ** Broadcasts *)

Lemma res_mapM_length {E A B} (f : A -> res E B) (l : list A) (l' : list B) :
  res_mapM f l = Ok l' -> length l' = length l.
Proof.
  revert l'. induction l as [| x l IH]; intros l'; cbn [res_mapM].
  - by intros [= <-].
  - destruct (f x) as [y | e]; cbn [res_bind]; [| discriminate].
    destruct (res_mapM f l) as [ys | e]; cbn [res_bind]; [| discriminate].
    intros [= <-]. cbn. by rewrite (IH ys).
Qed.

(** What the membership check leaves of a non-empty request: exactly the
    requested presences that are members, each as often as the listing has
    it at most; nothing left is the early return. *)
Lemma broadcast_members_spec (core : RuntimeJavascriptMatchCore) (ids : list PresenceID) :
  ids <> [] ->
  exists rs : list PresenceID,
    (forall q, q ∈ rs <-> q ∈ ids /\ q ∈ ListPresenceIDs (presenceList core))
    /\ (NoDup (ListPresenceIDs (presenceList core)) -> NoDup rs)
    /\ broadcast_members core (Some ids)
       = if decide (rs = []) then None else Some (Some rs).
Proof.
  intros Hne. unfold broadcast_members.
  destruct ids as [| first [| second rest]]; [done | |].
  - unfold Contains. case_bool_decide as Hin; cbn [negb].
    + exists [first]. split; [| split].
      * intros q. rewrite list_elem_of_singleton.
        split; [intros ->; by split | by intros [-> _]].
      * intros _. apply NoDup_singleton.
      * by rewrite decide_False.
    + exists []. split; [| split].
      * intros q. rewrite list_elem_of_singleton. split; [intros Hq; by apply elem_of_nil in Hq |].
        intros [-> ?]. done.
      * intros _. apply NoDup_nil_2.
      * by rewrite decide_True.
  - set (ids := first :: second :: rest).
    set (dir := ListPresenceIDs (presenceList core)).
    exists (reconcile (length ids) ids dir 0).
    destruct (reconcile_spec ids dir) as [Hperm Hiff].
    split; [done |]. split; [apply reconcile_NoDup |].
    destruct (reconcile (length ids) ids dir 0) as [| r rs]; cbn [length Nat.eqb].
    + by rewrite decide_True.
    + by rewrite decide_False.
Qed.

Lemma validateBroadcast_filtered (core : RuntimeJavascriptMatchCore) (f : list value)
    (opCode : Z) (dataBytes : option string) (filterSlice : list value)
    (ids : list PresenceID) :
  getJsInt (Argument f 0) = Ok opCode ->
  broadcast_data (Argument f 1) = Ok dataBytes ->
  Argument f 2 = VArray filterSlice ->
  res_mapM filter_entry filterSlice = Ok ids ->
  validateBroadcast core f
  = match ids with
    | [] => Ok ([], None, false)
    | _ =>
        let* presence := broadcast_sender (Argument f 3) in
        match broadcast_members core (Some ids) with
        | None => Ok ([], None, false)
        | Some presenceIDs =>
            let* reliable := broadcast_reliable (Argument f 4) in
            Ok (default (ListPresenceIDs (presenceList core)) presenceIDs,
                Some {| MatchId := idStr core; Presence := presence;
                        OpCode := opCode; Data := dataBytes; Reliable := reliable |},
                reliable)
        end
    end.
Proof.
  intros Hop Hdata Hfilter Hids. unfold validateBroadcast.
  rewrite Hop, Hdata, Hfilter. cbn [res_bind broadcast_filter IsUndefined IsNull negb andb].
  rewrite Hids. cbn [res_bind].
  destruct ids as [| first rest]; [done |].
  destruct (broadcast_sender (Argument f 3)) as [presence | e]; cbn [res_bind]; [| done].
  destruct (broadcast_members core (Some (first :: rest))) as [[rs |] |]; try done.
Qed.

(** C5. With an empty array as the recipient filter, whatever the
    members of the match, the sender and the reliable flag: the resolution
    never yields recipients or an envelope and [broadcastMessage] and
    [broadcastMessageDeferred] let no call leave the core; and when the op
    code and the payload, which are read before the filter, are well
    typed, the resolution is the no-op and both functions return normally
    with the state as it was. *)
Theorem empty_filter_is_noop (f : list value) (st : State) :
  Argument f 2 = VArray [] ->
  (forall presenceIDs msg reliable,
      validateBroadcast (rm st) f = Ok (presenceIDs, msg, reliable) ->
      presenceIDs = [] /\ msg = None)
  /\ calls (snd (broadcastMessage f st)) = calls st
  /\ calls (snd (broadcastMessageDeferred f st)) = calls st
  /\ (forall opCode dataBytes,
        getJsInt (Argument f 0) = Ok opCode ->
        broadcast_data (Argument f 1) = Ok dataBytes ->
        validateBroadcast (rm st) f = Ok ([], None, false)
        /\ (stopped (rm st) = false ->
            broadcastMessage f st = (Ok VUndefined, st)
            /\ broadcastMessageDeferred f st = (Ok VUndefined, st))).
Proof.
  intros Hfilter.
  assert (Hv : validateBroadcast (rm st) f = Ok ([], None, false)
               \/ exists e, validateBroadcast (rm st) f = Err e).
  { unfold validateBroadcast.
    destruct (getJsInt (Argument f 0)) as [opCode | e]; cbn [res_bind]; [| eauto].
    destruct (broadcast_data (Argument f 1)) as [dataBytes | e]; cbn [res_bind]; [| eauto].
    rewrite Hfilter. cbn. auto. }
  split; [| split; [| split]].
  - intros presenceIDs msg reliable Hok.
    destruct Hv as [Hv | [e Hv]]; rewrite Hv in Hok; [| discriminate].
    by injection Hok as <- <- <-.
  - unfold broadcastMessage. destruct (stopped (rm st)); [done |].
    destruct Hv as [-> | [e ->]]; done.
  - unfold broadcastMessageDeferred. destruct (stopped (rm st)); [done |].
    destruct Hv as [-> | [e ->]]; done.
  - intros opCode dataBytes Hop Hdata.
    assert (Hnoop : validateBroadcast (rm st) f = Ok ([], None, false)).
    { by rewrite (validateBroadcast_filtered _ _ _ _ [] [] Hop Hdata Hfilter eq_refl). }
    split; [done |]. intros Hrun.
    unfold broadcastMessage, broadcastMessageDeferred. rewrite Hrun, Hnoop. done.
Qed.

(** C2. With a non-empty filter of well-formed entries in an otherwise
    well-formed call on a running match, [broadcastMessage] does not
    throw; the recipients it resolves are exactly the requested presences
    that are members of the match, so a requested presence that is not a
    member is left out and the requested members still get the message;
    and when none of the requested presences is a member nothing is
    sent. *)
Theorem broadcast_drops_absent_recipients (f : list value) (st : State)
    (opCode : Z) (dataBytes : option string) (filterSlice : list value)
    (ids : list PresenceID) (presence : option UserPresence) (reliable : bool) :
  stopped (rm st) = false ->
  getJsInt (Argument f 0) = Ok opCode ->
  broadcast_data (Argument f 1) = Ok dataBytes ->
  Argument f 2 = VArray filterSlice ->
  filterSlice <> [] ->
  res_mapM filter_entry filterSlice = Ok ids ->
  broadcast_sender (Argument f 3) = Ok presence ->
  broadcast_reliable (Argument f 4) = Ok reliable ->
  exists rs : list PresenceID,
    (forall q, q ∈ rs <-> q ∈ ids /\ q ∈ ListPresenceIDs (presenceList (rm st)))
    /\ validateBroadcast (rm st) f
       = Ok (if decide (rs = []) then ([], None, false)
             else (rs,
                   Some {| MatchId := idStr (rm st); Presence := presence;
                           OpCode := opCode; Data := dataBytes; Reliable := reliable |},
                   reliable))
    /\ broadcastMessage f st
       = (Ok VUndefined,
          if decide (rs = []) then st
          else issue (SendToPresenceIDs rs
                        (Some {| MatchId := idStr (rm st); Presence := presence;
                                 OpCode := opCode; Data := dataBytes;
                                 Reliable := reliable |})
                        reliable) st).
Proof.
  intros Hrun Hop Hdata Hfilter Hne Hids Hsender Hreliable.
  assert (Hids_ne : ids <> []).
  { intros ->. apply res_mapM_length in Hids. by destruct filterSlice. }
  destruct (broadcast_members_spec (rm st) ids Hids_ne) as (rs & Hiff & _ & Hmem).
  exists rs. split; [done |].
  assert (Hv : validateBroadcast (rm st) f
               = Ok (if decide (rs = []) then ([], None, false)
                     else (rs,
                           Some {| MatchId := idStr (rm st); Presence := presence;
                                   OpCode := opCode; Data := dataBytes;
                                   Reliable := reliable |},
                           reliable))).
  { rewrite (validateBroadcast_filtered _ _ _ _ _ _ Hop Hdata Hfilter Hids).
    destruct ids as [| first rest]; [done |].
    rewrite Hsender, Hmem. cbn [res_bind].
    case_decide; [done |]. by rewrite Hreliable. }
  split; [done |].
  unfold broadcastMessage. rewrite Hrun, Hv.
  case_decide as Hrs; [done |].
  destruct rs; [done |]. done.
Qed.

(** C10. With a non-empty filter and a listing of the members that has
    no (SessionID, Node) twice, the recipients the resolution yields hold
    no presence twice, however often the filter names it. *)
Theorem resolved_recipients_NoDup (core : RuntimeJavascriptMatchCore) (f : list value)
    (filterSlice : list value) (presenceIDs : list PresenceID)
    (msg : option Envelope) (reliable : bool) :
  Argument f 2 = VArray filterSlice ->
  filterSlice <> [] ->
  NoDup (ListPresenceIDs (presenceList core)) ->
  validateBroadcast core f = Ok (presenceIDs, msg, reliable) ->
  NoDup presenceIDs.
Proof.
  intros Hfilter Hne Hdir Hv. unfold validateBroadcast in Hv.
  destruct (getJsInt (Argument f 0)) as [opCode | e]; cbn [res_bind] in Hv; [| done].
  destruct (broadcast_data (Argument f 1)) as [dataBytes | e]; cbn [res_bind] in Hv; [| done].
  rewrite Hfilter in Hv. cbn [res_bind broadcast_filter IsUndefined IsNull negb andb] in Hv.
  destruct (res_mapM filter_entry filterSlice) as [ids | e] eqn:Hids;
    cbn [res_bind] in Hv; [| done].
  destruct ids as [| first rest].
  { injection Hv as <- _ _. apply NoDup_nil_2. }
  destruct (broadcast_sender (Argument f 3)) as [presence | e]; cbn [res_bind] in Hv; [| done].
  destruct (broadcast_members_spec core (first :: rest)) as (rs & _ & Hnd & Hmem); [done |].
  rewrite Hmem in Hv. case_decide.
  { injection Hv as <- _ _. apply NoDup_nil_2. }
  destruct (broadcast_reliable (Argument f 4)) as [r | e]; cbn [res_bind] in Hv; [| done].
  injection Hv as <- _ _. by apply Hnd.
Qed.

(** The sender of a broadcast: once the user id and the session id have
    passed, any [username] that is not nil is accepted, whatever its type,
    and the envelope names the session id string as the username. *)
Lemma broadcast_sender_username (senderMap : gmap string value)
    (userIDStr sidStr : string) (uid sid : UUID) :
  index_or_nil senderMap "user_id" = VString userIDStr ->
  uuid_FromString userIDStr = Some uid ->
  index_or_nil senderMap "session_id" = VString sidStr ->
  uuid_FromString sidStr = Some sid ->
  is_nil (index_or_nil senderMap "username") = false ->
  broadcast_sender (VObject senderMap)
  = Ok (Some {| UserId := userIDStr; SessionId := sidStr; Username := sidStr |}).
Proof.
  intros Huser Huid Hsession Hsid Hname. unfold broadcast_sender.
  cbn [IsUndefined IsNull negb andb].
  rewrite Huser. cbn [is_nil IsUndefined IsNull orb]. rewrite Huid.
  rewrite Hsession. cbn [is_nil IsUndefined IsNull orb]. rewrite Hsid, Hname.
  reflexivity.
Qed.

(** ** The timeout of [httpRequest] *)

(** X19. A call without timeout argument leaves the client as it finds
    it, whether it returns or throws. *)
Lemma httpRequest_without_timeout (f : list value) (n : runtimeJavascriptNakamaModule) :
  IsUndefined (Argument f 4) = true -> snd (httpRequest f n) = n.
Proof.
  intros Hundef. unfold httpRequest.
  destruct (getString (Argument f 0)); [| done].
  destruct (getString (Argument f 1)); [| done].
  destruct (getStringMap (Argument f 2)); [| done].
  destruct (getString (Argument f 3)); [| done].
  rewrite Hundef. done.
Qed.

(** X18. A call with a timeout argument, once its first four arguments
    have been read, stores that timeout in the client of the module,
    where it stays when the call is over, whether it returned or threw. *)
Lemma httpRequest_with_timeout (f : list value) (n : runtimeJavascriptNakamaModule)
    (url method body : string) (headers : gmap string string) :
  getString (Argument f 0) = Ok url ->
  getString (Argument f 1) = Ok method ->
  getStringMap (Argument f 2) = Ok headers ->
  getString (Argument f 3) = Ok body ->
  IsUndefined (Argument f 4) = false ->
  Timeout (httpClient (snd (httpRequest f n)))
  = wrap_int64 (wrap_int64 (ToInteger (Argument f 4)) * Millisecond).
Proof.
  intros Hurl Hmethod Hheaders Hbody Hdef. unfold httpRequest.
  rewrite Hurl, Hmethod, Hheaders, Hbody, Hdef. done.
Qed.

End WithRuntime.

(** * The properties on concrete matches *)

(** C1 on a stopped match with two members. *)
Lemma stopped_match_rejects_calls_witness :
  broadcastMessage (host := sample_runtime)
    (sample_broadcast VUndefined VUndefined) (sample_state true sample_members)
  = (Err match_stopped, sample_state true sample_members)
  /\ broadcastMessageDeferred (host := sample_runtime)
       (sample_broadcast VUndefined VUndefined) (sample_state true sample_members)
     = (Err match_stopped, sample_state true sample_members)
  /\ matchKick (host := sample_runtime)
       (sample_broadcast VUndefined VUndefined) (sample_state true sample_members)
     = (Err match_stopped, sample_state true sample_members)
  /\ matchLabelUpdate (host := sample_runtime)
       (sample_broadcast VUndefined VUndefined) (sample_state true sample_members)
     = (Err match_stopped, sample_state true sample_members).
Proof.
  apply (stopped_match_rejects_calls (host := sample_runtime)). reflexivity.
Defined.

(** C3 as stated fails: an answer with [tick_rate] 10 and a [state], but a
    number as [label], makes [MatchInit] fail. *)
Lemma MatchInit_numeric_label_fails :
  ~ (is_Ok (fst (MatchInit (host := sample_runtime)
                   (sample_core (fun _ => Ok sample_init_answer_numeric_label)
                      (fun _ => Ok VNull) false [])
                   {| presences := [] |} (fun _ => None) ∅))
     <-> has_tick_rate sample_init_answer_numeric_label = true
         /\ has_state sample_init_answer_numeric_label = true).
Proof.
  intros [_ Hback].
  assert (Hfails :
    fst (MatchInit (host := sample_runtime)
           (sample_core (fun _ => Ok sample_init_answer_numeric_label)
              (fun _ => Ok VNull) false [])
           {| presences := [] |} (fun _ => None) ∅)
    = Err (errors_New "match_init 'label' value must be a string"))
    by (vm_compute; reflexivity).
  rewrite Hfails in Hback. apply Hback. split; vm_compute; reflexivity.
Qed.

(** C3, amended, on the answer [{state: {score: 0}, tick_rate: 10, label: 'arena-1'}]. *)
Lemma MatchInit_succeeds_iff_witness :
  fst (MatchInit (host := sample_runtime)
         (sample_core (fun _ => Ok sample_init_answer) (fun _ => Ok VNull) false [])
         {| presences := [] |} (fun _ => None) ∅)
  = Ok (Some (VObject (<["score" := VInt 0]> ∅)), 10%Z)
  /\ (is_Ok (fst (MatchInit (host := sample_runtime)
                    (sample_core (fun _ => Ok sample_init_answer) (fun _ => Ok VNull) false [])
                    {| presences := [] |} (fun _ => None) ∅))
      <-> has_tick_rate sample_init_answer = true
          /\ has_state sample_init_answer = true
          /\ label_fits sample_init_answer = true).
Proof.
  split; [vm_compute; reflexivity |].
  apply (MatchInit_succeeds_iff (host := sample_runtime)
           (sample_core (fun _ => Ok sample_init_answer) (fun _ => Ok VNull) false [])
           {| presences := [] |} (fun _ => None) ∅ sample_init_answer).
  reflexivity.
Defined.

(** The four answers the design document lists, and a label that is set. *)
Example MatchInit_examples :
  let init answer :=
    fst (MatchInit (host := sample_runtime)
           (sample_core (fun _ => Ok (VObject answer)) (fun _ => Ok VNull) false [])
           {| presences := [] |} (fun _ => None) ∅) in
  let out_of_range :=
    Err (errors_New "match_init 'tick_rate' must be a number between 1 and 30") in
  init (<["state" := VNull]> (<["tick_rate" := VInt 0]> ∅)) = out_of_range
  /\ init (<["state" := VNull]> (<["tick_rate" := VInt 31]> ∅)) = out_of_range
  /\ init (<["state" := VNull]> (<["tick_rate" := VString "5"]> ∅)) = out_of_range
  /\ init (<["state" := VNull]> ∅)
     = Err (errors_New "match_init return value has no 'tick_rate' property")
  /\ init (<["state" := VNull]> (<["tick_rate" := VInt 1]> ∅)) = Ok (None, 1%Z)
  /\ init (<["state" := VNull]> (<["tick_rate" := VInt 30]> ∅)) = Ok (None, 30%Z).
Proof. vm_compute. repeat split. Qed.

(** C2 on a broadcast to the member a and to the absent c. *)
Lemma broadcast_drops_absent_recipients_witness :
  exists rs : list PresenceID,
    (forall q, q ∈ rs
               <-> q ∈ [ {| SessionID := 10%N; Node := "node1" |};
                         {| SessionID := 12%N; Node := "node1" |} ]
                   /\ q ∈ ListPresenceIDs (presenceList (rm (sample_state false sample_members))))
    /\ validateBroadcast (host := sample_runtime) (rm (sample_state false sample_members))
         (sample_broadcast (VArray sample_filter_absent) VUndefined)
       = Ok (if decide (rs = []) then ([], None, false)
             else (rs, Some (sample_envelope None), true))
    /\ broadcastMessage (host := sample_runtime)
         (sample_broadcast (VArray sample_filter_absent) VUndefined)
         (sample_state false sample_members)
       = (Ok VUndefined,
          if decide (rs = []) then sample_state false sample_members
          else issue (SendToPresenceIDs rs (Some (sample_envelope None)) true)
                 (sample_state false sample_members)).
Proof.
  apply (broadcast_drops_absent_recipients (host := sample_runtime)
           (sample_broadcast (VArray sample_filter_absent) VUndefined)
           (sample_state false sample_members)
           7%Z (Some "ping") sample_filter_absent
           [ {| SessionID := 10%N; Node := "node1" |};
             {| SessionID := 12%N; Node := "node1" |} ]
           None true);
    first [ reflexivity | discriminate ].
Defined.

(** The same broadcast, evaluated: a receives the message, the absent c
    does not, and nothing is thrown; a broadcast to c alone sends
    nothing. *)
Example broadcast_to_absent_example :
  broadcastMessage (host := sample_runtime)
    (sample_broadcast (VArray sample_filter_absent) VUndefined)
    (sample_state false sample_members)
  = (Ok VUndefined,
     {| rm := rm (sample_state false sample_members);
        calls := [SendToPresenceIDs [ {| SessionID := 10%N; Node := "node1" |} ]
                    (Some (sample_envelope None)) true] |})
  /\ broadcastMessage (host := sample_runtime)
       (sample_broadcast (VArray [js_presence session_c]) VUndefined)
       (sample_state false sample_members)
     = (Ok VUndefined, sample_state false sample_members).
Proof. vm_compute. split; reflexivity. Qed.

(** C5 on a broadcast with the filter [[]] to a match with two members. *)
Lemma empty_filter_is_noop_witness :
  validateBroadcast (host := sample_runtime) (rm (sample_state false sample_members))
    (sample_broadcast (VArray []) VUndefined)
  = Ok ([], None, false)
  /\ broadcastMessage (host := sample_runtime)
       (sample_broadcast (VArray []) VUndefined) (sample_state false sample_members)
     = (Ok VUndefined, sample_state false sample_members)
  /\ broadcastMessageDeferred (host := sample_runtime)
       (sample_broadcast (VArray []) VUndefined) (sample_state false sample_members)
     = (Ok VUndefined, sample_state false sample_members).
Proof.
  destruct (empty_filter_is_noop (host := sample_runtime)
              (sample_broadcast (VArray []) VUndefined)
              (sample_state false sample_members) eq_refl)
    as (_ & _ & _ & Hnoop).
  destruct (Hnoop 7%Z (Some "ping") eq_refl eq_refl) as [Hv Hcalls].
  split; [exact Hv | exact (Hcalls eq_refl)].
Defined.

(** C7 on a handler that returns [null]. *)
Lemma MatchLoop_null_is_noop_witness :
  exists (r : res error (option value)) (inputCh' : chan),
    MatchLoop (host := sample_runtime)
      (sample_core (fun _ => Ok VNull) (fun _ => Ok VNull) false sample_members)
      3%Z (Some (VInt 0)) [sample_message] sample_producers
    = Some (r, inputCh')
    /\ (is_nil VNull = true -> r = Ok None)
    /\ (is_nil VNull = false -> is_object VNull = false ->
        exists e, r = Err e /\ LoopProtocolViolation e)
    /\ (forall retMap, VNull = VObject retMap -> retMap !! "state" = None ->
        exists e, r = Err e /\ LoopProtocolViolation e).
Proof.
  apply (MatchLoop_null_is_noop (host := sample_runtime)
           (sample_core (fun _ => Ok VNull) (fun _ => Ok VNull) false sample_members)
           3%Z (Some (VInt 0)) [sample_message] sample_producers VNull).
  reflexivity.
Defined.

(** Answers of a [match_loop] handler, evaluated: [null] and [undefined]
    give a nil state and no error, a number and an object without [state]
    the protocol violation, an object with [state] that state. *)
Example MatchLoop_examples :
  let loop answer :=
    fst <$> MatchLoop (host := sample_runtime)
              (sample_core (fun _ => Ok VNull) (fun _ => Ok answer) false sample_members)
              3%Z (Some (VInt 0)) [sample_message] sample_producers in
  let violation :=
    Err (errors_New "match_loop is expected to return an object with 'state' property") in
  loop VNull = Some (Ok None)
  /\ loop VUndefined = Some (Ok None)
  /\ loop (VInt 5) = Some violation
  /\ loop (VObject ∅) = Some violation
  /\ loop (VObject (<["state" := VInt 1]> ∅)) = Some (Ok (Some (VInt 1))).
Proof. vm_compute. repeat split. Qed.

(** C10 on a filter that names the member a twice and the member b once. *)
Lemma resolved_recipients_NoDup_witness :
  NoDup [ {| SessionID := 10%N; Node := "node1" |};
          {| SessionID := 11%N; Node := "node1" |} ].
Proof.
  apply (resolved_recipients_NoDup (host := sample_runtime)
           (rm (sample_state false sample_members))
           (sample_broadcast (VArray sample_filter_twice) VUndefined)
           sample_filter_twice
           [ {| SessionID := 10%N; Node := "node1" |};
             {| SessionID := 11%N; Node := "node1" |} ]
           (Some (sample_envelope None)) true).
  - reflexivity.
  - discriminate.
  - apply (bool_decide_unpack _). vm_compute. exact I.
  - vm_compute. reflexivity.
Defined.

(** C4, on the code: a sender whose username is "alice" is announced
    under its session id, and a sender whose username is the number 42 is
    accepted and announced the same way. *)
Theorem sender_username_is_session_id :
  validateBroadcast (host := sample_runtime) (rm (sample_state false sample_members))
    (sample_broadcast (VArray [js_presence session_a])
       (js_sender user_a session_a (VString "alice")))
  = Ok ([ {| SessionID := 10%N; Node := "node1" |} ],
        Some (sample_envelope
                (Some {| UserId := user_a; SessionId := session_a;
                         Username := session_a |})),
        true)
  /\ validateBroadcast (host := sample_runtime) (rm (sample_state false sample_members))
       (sample_broadcast (VArray [js_presence session_a])
          (js_sender user_a session_a (VInt 42)))
     = Ok ([ {| SessionID := 10%N; Node := "node1" |} ],
           Some (sample_envelope
                   (Some {| UserId := user_a; SessionId := session_a;
                            Username := session_a |})),
           true).
Proof. vm_compute. split; reflexivity. Qed.

(** C9, on the code: a new module waits 5 seconds; after one call that
    asks for 100 milliseconds the module's client waits 100 milliseconds,
    and the next call, which names no timeout, runs under those 100
    milliseconds and not under the 5 seconds. *)
Theorem httpRequest_timeout_outlives_call :
  Timeout (httpClient NewRuntimeJavascriptNakamaModule) = 5000000000%Z
  /\ fst (httpRequest (host := sample_runtime) (sample_request [])
            NewRuntimeJavascriptNakamaModule)
     = Ok (sample_answer "5000000000")
  /\ Timeout (httpClient (snd (httpRequest (host := sample_runtime)
                                 (sample_request [VInt 100])
                                 NewRuntimeJavascriptNakamaModule)))
     = 100000000%Z
  /\ fst (httpRequest (host := sample_runtime) (sample_request [])
            (snd (httpRequest (host := sample_runtime) (sample_request [VInt 100])
                    NewRuntimeJavascriptNakamaModule)))
     = Ok (sample_answer "100000000").
Proof. vm_compute. repeat split. Qed.

(** * Further properties of the nakama module *)

Local Open Scope nat_scope.
Local Open Scope list_scope.

(** ** Strings as lists of characters *)

Lemma string_length_of_list (l : list ascii) :
  String.length (string_of_list_ascii l) = length l.
Proof. induction l as [| c l IH]; cbn; [done | by rewrite IH]. Qed.

Lemma string_of_list_app (l k : list ascii) :
  string_of_list_ascii (l ++ k) = string_of_list_ascii l +:+ string_of_list_ascii k.
Proof. induction l as [| c l IH]; cbn; [done | by rewrite IH]. Qed.

(** ** Base64 without padding *)

(** The unpadded encoding is the padded one without its padding, and its
    length tells how much padding is missing. *)
Lemma Encode_raw_shape (src : list ascii) :
  (length (base64.Encode base64.RawURLEncoding src) mod 4 = 0
   /\ base64.Encode base64.URLEncoding src = base64.Encode base64.RawURLEncoding src)
  \/ (length (base64.Encode base64.RawURLEncoding src) mod 4 = 2
      /\ base64.Encode base64.URLEncoding src
         = base64.Encode base64.RawURLEncoding src ++ ["="; "="]%char)
  \/ (length (base64.Encode base64.RawURLEncoding src) mod 4 = 3
      /\ base64.Encode base64.URLEncoding src
         = base64.Encode base64.RawURLEncoding src ++ ["="]%char).
Proof.
  induction src as [| b0 | b0 b1 | b0 b1 b2 rest IH] using list_ind3.
  - left. done.
  - right. left. done.
  - right. right. done.
  - cbn [base64.Encode length].
    set (raw := base64.Encode base64.RawURLEncoding rest) in *.
    replace (S (S (S (S (length raw))))) with (length raw + 1 * 4) by lia.
    rewrite Nat.Div0.mod_add.
    destruct IH as [[Hm ->] | [[Hm ->] | [Hm ->]]]; auto.
Qed.

(** The padding [base64UrlDecode] adds when asked to make up for it. *)
Lemma pad_raw (s : string) :
  (let in_ := base64.EncodeToString base64.RawURLEncoding s in
   let maybePad := String.length in_ mod 4 in
   if negb (maybePad =? 0) then in_ +:+ strings_Repeat "=" (4 - maybePad) else in_)
  = base64.EncodeToString base64.URLEncoding s.
Proof.
  cbv zeta. unfold base64.EncodeToString. rewrite string_length_of_list.
  destruct (Encode_raw_shape (list_ascii_of_string s)) as [[-> ->] | [[-> ->] | [-> ->]]];
    cbn [Nat.eqb negb Nat.sub strings_Repeat]; by rewrite ?string_of_list_app.
Qed.

Lemma Encode_padded_length (src : list ascii) :
  length (base64.Encode base64.URLEncoding src) = 4 * ((length src + 2) / 3).
Proof.
  induction src as [| b0 | b0 b1 | b0 b1 b2 rest IH] using list_ind3; try done.
  cbn [base64.Encode length]. rewrite IH.
  replace (S (S (S (length rest))) + 2) with (length rest + 2 + 1 * 3) by lia.
  rewrite Nat.div_add by lia. lia.
Qed.

(** X1. With padding disabled on both sides, [base64UrlDecode] undoes
    [base64UrlEncode] on every string; and decoding with padding disabled
    also accepts the padded form. *)
Theorem base64Url_raw_roundtrip (s : string) :
  exists e p : string,
    base64UrlEncode [VString s; VBool false] = Ok (VString e)
    /\ base64UrlDecode [VString e; VBool false] = Ok (VString s)
    /\ base64UrlEncode [VString s] = Ok (VString p)
    /\ base64UrlDecode [VString p; VBool false] = Ok (VString s).
Proof.
  exists (base64.EncodeToString base64.RawURLEncoding s),
         (base64.EncodeToString base64.URLEncoding s).
  unfold base64UrlEncode, base64UrlDecode, padding_arg, Argument.
  cbn [nth getString getBool res_bind IsUndefined negb].
  pose proof (pad_raw s) as Hpad. cbv zeta in Hpad. rewrite Hpad.
  rewrite DecodeString_EncodeToString.
  assert (Hlen : String.length (base64.EncodeToString base64.URLEncoding s) mod 4 = 0).
  { unfold base64.EncodeToString. rewrite string_length_of_list, Encode_padded_length.
    rewrite Nat.mul_comm. apply Nat.Div0.mod_mul. }
  rewrite Hlen. cbn [Nat.eqb negb].
  rewrite DecodeString_EncodeToString. auto.
Qed.

(** ** The shape of an encoding *)

Definition url_safe (c : ascii) : bool :=
  bool_decide (c ∈ list_ascii_of_string base64.encodeURL).

Lemma url_digits : forallb (fun n => url_safe (base64.encode_at base64.URLEncoding (Z.of_nat n))) (seq 0 64) = true.
Proof. vm_compute. reflexivity. Qed.

Lemma url_safe_digit (x : Z) :
  url_safe (base64.encode_at base64.URLEncoding (Z.land x 63)) = true.
Proof.
  pose proof (digit_range x) as Hr. pose proof url_digits as H.
  rewrite forallb_forall in H.
  specialize (H (Z.to_nat (Z.land x 63))).
  rewrite Z2Nat.id in H by lia. apply H, in_seq. lia.
Qed.

(** X2. The padded encoding of a string of n bytes has 4 * ceil(n / 3)
    characters, each of them a character of the URL-safe alphabet or the
    padding character. *)
Theorem base64UrlEncode_shape (s : string) :
  exists e : string,
    base64UrlEncode [VString s] = Ok (VString e)
    /\ String.length e = 4 * ((String.length s + 2) / 3)
    /\ Forall (fun c => url_safe c = true \/ c = "="%char) (list_ascii_of_string e).
Proof.
  exists (base64.EncodeToString base64.URLEncoding s). split; [done |].
  unfold base64.EncodeToString.
  rewrite string_length_of_list, Encode_padded_length, list_ascii_of_string_of_list_ascii.
  rewrite <- (string_length_of_list (list_ascii_of_string s)), string_of_list_ascii_of_string.
  split; [done |].
  induction (list_ascii_of_string s) as [| b0 | b0 b1 | b0 b1 b2 rest IH] using list_ind3.
  - constructor.
  - cbn [base64.Encode base64.pad base64.padChar base64.URLEncoding app].
    repeat (apply List.Forall_cons;
            [first [left; apply url_safe_digit | right; reflexivity] |]).
    apply List.Forall_nil.
  - cbn [base64.Encode base64.pad base64.padChar base64.URLEncoding app].
    repeat (apply List.Forall_cons;
            [first [left; apply url_safe_digit | right; reflexivity] |]).
    apply List.Forall_nil.
  - cbn [base64.Encode].
    do 4 (apply List.Forall_cons; [left; apply url_safe_digit |]). exact IH.
Qed.

(** ** What the decoder refuses *)

Lemma list_ind4 {A} (P : list A -> Prop) :
  P [] -> (forall a, P [a]) -> (forall a b, P [a; b]) -> (forall a b c, P [a; b; c]) ->
  (forall a b c d l, P l -> P (a :: b :: c :: d :: l)) ->
  forall l, P l.
Proof.
  intros H0 H1 H2 H3 H4 l.
  assert (H : P l /\ (forall a, P (a :: l)) /\ (forall a b, P (a :: b :: l))
              /\ (forall a b c, P (a :: b :: c :: l))).
  { induction l as [| x l IH]; [auto |].
    destruct IH as (IH0 & IH1 & IH2 & IH3). auto. }
  apply H.
Qed.

(** A padding encoding decodes whole groups of four characters only, and
    gives at most three bytes for each. *)
Lemma decodeQuanta_padded_groups (enc : base64.Encoding) (p : ascii) (src out : list ascii) :
  base64.padChar enc = Some p ->
  base64.decodeQuanta enc src = Some out ->
  length src mod 4 = 0 /\ length out <= 3 * (length src / 4).
Proof.
  intros Hpad. revert out.
  induction src as [| c0 | c0 c1 | c0 c1 c2 | c0 c1 c2 c3 rest IH] using list_ind4;
    intros out; cbn [base64.decodeQuanta].
  - intros [= <-]. done.
  - done.
  - destruct (base64.decodeMap enc c0), (base64.decodeMap enc c1); try done.
    by rewrite Hpad.
  - destruct (base64.decodeMap enc c0), (base64.decodeMap enc c1); try done.
    destruct (base64.decodeMap enc c2); [| done]. by rewrite Hpad.
  - cbn [length].
    replace (S (S (S (S (length rest))))) with (length rest + 1 * 4) by lia.
    rewrite Nat.Div0.mod_add, Nat.div_add by lia.
    destruct (base64.decodeMap enc c0), (base64.decodeMap enc c1); try done.
    destruct (base64.decodeMap enc c2).
    + destruct (base64.decodeMap enc c3).
      * destruct (base64.decodeQuanta enc rest) as [out' |]; [| done].
        intros [= <-]. destruct (IH out' eq_refl) as [Hm Hl].
        split; [done |]. cbn [length]. lia.
      * destruct rest; [| done]. destruct (base64.is_pad enc c3); [| done].
        intros [= <-]. cbn. split; [done | lia].
    + destruct rest; [| done].
      destruct (base64.is_pad enc c2 && base64.is_pad enc c3); [| done].
      intros [= <-]. cbn. split; [done | lia].
Qed.

(** X3. With padding enabled, [base64UrlDecode] throws unless the input,
    line breaks aside, is made of whole groups of four characters; what it
    returns has at most three bytes for each group. *)
Theorem base64UrlDecode_groups (s out : string) :
  base64UrlDecode [VString s] = Ok (VString out) ->
  let body := filter (fun c => base64.is_newline c = false) (list_ascii_of_string s) in
  length body mod 4 = 0 /\ String.length out <= 3 * (length body / 4).
Proof.
  unfold base64UrlDecode, padding_arg, Argument.
  cbn [nth getString res_bind IsUndefined negb]. unfold base64.DecodeString.
  destruct (base64.decodeQuanta _ _) as [bytes |] eqn:Hdec; [| done].
  intros [= <-]. cbv zeta. rewrite string_length_of_list.
  by eapply (decodeQuanta_padded_groups base64.URLEncoding).
Qed.

(** Quotients and remainders by constants. *)
Ltac quotients := Z.div_mod_to_equations; lia.

(** ** [base64Encode] against [base64Decode] *)

(** The two characters of the URL alphabet that the standard alphabet
    does not have. *)
Definition url_only (c : ascii) : bool :=
  Ascii.eqb c "-"%char || Ascii.eqb c "_"%char.

Definition std_digit_ok (n : nat) : bool :=
  let c := base64.encode_at base64.URLEncoding (Z.of_nat n) in
  match base64.decodeMap base64.StdEncoding c with
  | Some d => negb (url_only c) && (d =? Z.of_nat n)%Z
  | None => url_only c
  end && negb (base64.is_pad base64.StdEncoding c) && negb (base64.is_newline c).

Lemma std_digits_ok : forallb std_digit_ok (seq 0 64) = true.
Proof. vm_compute. reflexivity. Qed.

(** A digit written with the URL alphabet is read back by the standard
    alphabet as itself, unless it is one of the two characters that
    alphabet lacks. *)
Lemma std_digit (x : Z) :
  let c := base64.encode_at base64.URLEncoding (Z.land x 63) in
  base64.decodeMap base64.StdEncoding c
  = (if url_only c then None else Some (Z.land x 63))
  /\ base64.is_pad base64.StdEncoding c = false.
Proof.
  pose proof (digit_range x) as Hr. pose proof std_digits_ok as H.
  rewrite forallb_forall in H.
  specialize (H (Z.to_nat (Z.land x 63))). unfold std_digit_ok in H.
  rewrite Z2Nat.id in H by lia.
  assert (Hin : In (Z.to_nat (Z.land x 63)) (seq 0 64)) by (apply in_seq; lia).
  specialize (H Hin). cbv zeta.
  apply andb_prop in H as [H _]. apply andb_prop in H as [H1 H2].
  apply negb_true_iff in H2. split; [| done].
  destruct (base64.decodeMap base64.StdEncoding _) as [d |].
  - apply andb_prop in H1 as [Hu Hd]. apply negb_true_iff in Hu. rewrite Hu.
    apply Z.eqb_eq in Hd. by subst d.
  - by rewrite H1.
Qed.

Lemma tail1_bytes (b0 : ascii) :
  take 1 (base64.quantum_bytes
            (base64.assemble
               (Z.land (Z.shiftr (Z.shiftl (base64.byte_val b0) 16) 18) 63)
               (Z.land (Z.shiftr (Z.shiftl (base64.byte_val b0) 16) 12) 63) 0 0))
  = [b0].
Proof.
  pose proof (byte_val_range b0) as H0.
  rewrite Z.shiftl_mul_pow2 by lia. change (2 ^ 16)%Z with 65536%Z.
  rewrite !land_63, !Z.shiftr_div_pow2 by lia.
  change (2 ^ 18)%Z with 262144%Z. change (2 ^ 12)%Z with 4096%Z.
  rewrite assemble_sum by (try apply Z.mod_pos_bound; lia).
  unfold base64.quantum_bytes. cbn [take]. f_equal. apply to_byte_eq.
  rewrite Z.shiftr_div_pow2 by lia. change (2 ^ 16)%Z with 65536%Z.
  quotients.
Qed.

Lemma tail2_bytes (b0 b1 : ascii) :
  let val := Z.lor (Z.shiftl (base64.byte_val b0) 16) (Z.shiftl (base64.byte_val b1) 8) in
  take 2 (base64.quantum_bytes
            (base64.assemble (Z.land (Z.shiftr val 18) 63) (Z.land (Z.shiftr val 12) 63)
               (Z.land (Z.shiftr val 6) 63) 0))
  = [b0; b1].
Proof.
  pose proof (byte_val_range b0) as H0. pose proof (byte_val_range b1) as H1.
  cbv zeta.
  replace (Z.lor (Z.shiftl (base64.byte_val b0) 16) (Z.shiftl (base64.byte_val b1) 8))
    with (base64.byte_val b0 * 65536 + base64.byte_val b1 * 256)%Z.
  2:{ rewrite !Z.shiftl_mul_pow2 by lia. symmetry.
      apply (lor_disjoint _ _ 16).
      - lia.
      - change (2 ^ 16)%Z with 65536%Z. change (2 ^ 8)%Z with 256%Z. quotients.
      - change (2 ^ 16)%Z with 65536%Z. change (2 ^ 8)%Z with 256%Z. lia. }
  rewrite !land_63, !Z.shiftr_div_pow2 by lia.
  change (2 ^ 18)%Z with 262144%Z. change (2 ^ 12)%Z with 4096%Z.
  change (2 ^ 6)%Z with 64%Z.
  rewrite assemble_sum by (try apply Z.mod_pos_bound; lia).
  unfold base64.quantum_bytes. cbn [take].
  f_equal; [| f_equal]; apply to_byte_eq;
    rewrite Z.shiftr_div_pow2 by lia;
    change (2 ^ 16)%Z with 65536%Z; change (2 ^ 8)%Z with 256%Z;
    quotients.
Qed.

Lemma quad_bytes (b0 b1 b2 : ascii) :
  let val := Z.lor (Z.lor (Z.shiftl (base64.byte_val b0) 16)
                          (Z.shiftl (base64.byte_val b1) 8))
                   (base64.byte_val b2) in
  base64.quantum_bytes
    (base64.assemble (Z.land (Z.shiftr val 18) 63) (Z.land (Z.shiftr val 12) 63)
       (Z.land (Z.shiftr val 6) 63) (Z.land val 63))
  = [b0; b1; b2].
Proof.
  pose proof (byte_val_range b0) as H0. pose proof (byte_val_range b1) as H1.
  pose proof (byte_val_range b2) as H2. cbv zeta.
  rewrite word_of_bytes by lia. rewrite assemble_digits by lia.
  apply quantum_bytes_word.
Qed.

(** How [decodeQuanta] goes through one group, by what its characters
    are read as. *)
Lemma quantum_bad0 (enc : base64.Encoding) (c0 c1 : ascii) (tl : list ascii) :
  base64.decodeMap enc c0 = None -> base64.decodeQuanta enc (c0 :: c1 :: tl) = None.
Proof. intros H. cbn [base64.decodeQuanta]. by rewrite H. Qed.

Lemma quantum_bad1 (enc : base64.Encoding) (c0 c1 : ascii) (tl : list ascii) :
  base64.decodeMap enc c1 = None -> base64.decodeQuanta enc (c0 :: c1 :: tl) = None.
Proof.
  intros H. cbn [base64.decodeQuanta]. rewrite H.
  by destruct (base64.decodeMap enc c0).
Qed.

Lemma quantum_bad2 (enc : base64.Encoding) (c0 c1 c2 : ascii) (tl : list ascii) :
  base64.decodeMap enc c2 = None -> base64.is_pad enc c2 = false ->
  base64.decodeQuanta enc (c0 :: c1 :: c2 :: tl) = None.
Proof.
  intros H Hp. cbn [base64.decodeQuanta]. rewrite H, Hp.
  destruct (base64.decodeMap enc c0), (base64.decodeMap enc c1); try done.
  by destruct tl as [| ? [| ? ?]].
Qed.

Lemma quantum_bad3 (enc : base64.Encoding) (c0 c1 c2 c3 : ascii) (tl : list ascii) :
  base64.decodeMap enc c3 = None -> base64.is_pad enc c3 = false ->
  base64.decodeQuanta enc (c0 :: c1 :: c2 :: c3 :: tl) = None.
Proof.
  intros H Hp. cbn [base64.decodeQuanta]. rewrite H, Hp.
  destruct (base64.decodeMap enc c0), (base64.decodeMap enc c1); try done.
  destruct (base64.decodeMap enc c2).
  - by destruct tl.
  - destruct tl; [| done]. by rewrite andb_false_r.
Qed.

Lemma quantum_full (enc : base64.Encoding) (c0 c1 c2 c3 : ascii) (d0 d1 d2 d3 : Z)
    (tl : list ascii) :
  base64.decodeMap enc c0 = Some d0 -> base64.decodeMap enc c1 = Some d1 ->
  base64.decodeMap enc c2 = Some d2 -> base64.decodeMap enc c3 = Some d3 ->
  base64.decodeQuanta enc (c0 :: c1 :: c2 :: c3 :: tl)
  = match base64.decodeQuanta enc tl with
    | Some out => Some (base64.quantum_bytes (base64.assemble d0 d1 d2 d3) ++ out)
    | None => None
    end.
Proof. intros H0 H1 H2 H3. cbn [base64.decodeQuanta]. by rewrite H0, H1, H2, H3. Qed.

Lemma quantum_two (c0 c1 : ascii) (d0 d1 : Z) :
  base64.decodeMap base64.StdEncoding c0 = Some d0 ->
  base64.decodeMap base64.StdEncoding c1 = Some d1 ->
  base64.decodeQuanta base64.StdEncoding [c0; c1; base64.StdPadding; base64.StdPadding]
  = Some (take 1 (base64.quantum_bytes (base64.assemble d0 d1 0 0))).
Proof. intros H0 H1. cbn [base64.decodeQuanta]. by rewrite H0, H1. Qed.

Lemma quantum_three (c0 c1 c2 : ascii) (d0 d1 d2 : Z) :
  base64.decodeMap base64.StdEncoding c0 = Some d0 ->
  base64.decodeMap base64.StdEncoding c1 = Some d1 ->
  base64.decodeMap base64.StdEncoding c2 = Some d2 ->
  base64.decodeQuanta base64.StdEncoding [c0; c1; c2; base64.StdPadding]
  = Some (take 2 (base64.quantum_bytes (base64.assemble d0 d1 d2 0))).
Proof. intros H0 H1 H2. cbn [base64.decodeQuanta]. by rewrite H0, H1, H2. Qed.

Lemma std_decode_url_encoding (src : list ascii) :
  base64.decodeQuanta base64.StdEncoding (base64.Encode base64.URLEncoding src)
  = if forallb (fun c => negb (url_only c)) (base64.Encode base64.URLEncoding src)
    then Some src else None.
Proof.
  induction src as [| b0 | b0 b1 | b0 b1 b2 rest IH] using list_ind3.
  - reflexivity.
  - pose proof (tail1_bytes b0) as Hb.
    cbn [base64.Encode base64.pad base64.padChar base64.URLEncoding app].
    set (val := Z.shiftl (base64.byte_val b0) 16) in *.
    destruct (std_digit (Z.shiftr val 18)) as [E0 _].
    destruct (std_digit (Z.shiftr val 12)) as [E1 _].
    cbn [forallb].
    destruct (url_only (base64.encode_at _ (Z.land (Z.shiftr val 18) 63)));
      [by rewrite quantum_bad0 |].
    destruct (url_only (base64.encode_at _ (Z.land (Z.shiftr val 12) 63)));
      [by rewrite quantum_bad1 |].
    by rewrite (quantum_two _ _ _ _ E0 E1), Hb.
  - pose proof (tail2_bytes b0 b1) as Hb. cbv zeta in Hb.
    cbn [base64.Encode base64.pad base64.padChar base64.URLEncoding app].
    set (val := Z.lor _ _) in *.
    destruct (std_digit (Z.shiftr val 18)) as [E0 _].
    destruct (std_digit (Z.shiftr val 12)) as [E1 _].
    destruct (std_digit (Z.shiftr val 6)) as [E2 P2].
    cbn [forallb].
    destruct (url_only (base64.encode_at _ (Z.land (Z.shiftr val 18) 63)));
      [by rewrite quantum_bad0 |].
    destruct (url_only (base64.encode_at _ (Z.land (Z.shiftr val 12) 63)));
      [by rewrite quantum_bad1 |].
    destruct (url_only (base64.encode_at _ (Z.land (Z.shiftr val 6) 63)));
      [by rewrite quantum_bad2 |].
    by rewrite (quantum_three _ _ _ _ _ _ E0 E1 E2), Hb.
  - pose proof (quad_bytes b0 b1 b2) as Hb. cbv zeta in Hb.
    cbn [base64.Encode].
    set (val := Z.lor _ _) in *.
    set (tl := base64.Encode base64.URLEncoding rest) in *.
    destruct (std_digit (Z.shiftr val 18)) as [E0 _].
    destruct (std_digit (Z.shiftr val 12)) as [E1 _].
    destruct (std_digit (Z.shiftr val 6)) as [E2 P2].
    destruct (std_digit val) as [E3 P3].
    cbn [forallb].
    destruct (url_only (base64.encode_at _ (Z.land (Z.shiftr val 18) 63)));
      [by rewrite quantum_bad0 |].
    destruct (url_only (base64.encode_at _ (Z.land (Z.shiftr val 12) 63)));
      [by rewrite quantum_bad1 |].
    destruct (url_only (base64.encode_at _ (Z.land (Z.shiftr val 6) 63)));
      [by rewrite quantum_bad2 |].
    destruct (url_only (base64.encode_at _ (Z.land val 63)));
      [by rewrite quantum_bad3 |].
    rewrite (quantum_full _ _ _ _ _ _ _ _ _ _ E0 E1 E2 E3), IH, Hb.
    cbn [negb andb]. by destruct (forallb _ tl).
Qed.

(** X4. [base64Encode] writes what [base64UrlEncode] writes, and
    [base64Decode] reads it back as the original string exactly when it
    holds neither '-' nor '_'; when it holds one of them, [base64Decode]
    throws. *)
Theorem base64Decode_of_base64Encode (s : string) :
  exists e : string,
    base64Encode [VString s] = Ok (VString e)
    /\ base64UrlEncode [VString s] = Ok (VString e)
    /\ base64Decode [VString e]
       = if forallb (fun c => negb (url_only c)) (list_ascii_of_string e)
         then Ok (VString s)
         else Err (Throw (VString ("Failed to decode string: " +:+ e))).
Proof.
  exists (base64.EncodeToString base64.URLEncoding s).
  split; [done |]. split; [done |].
  unfold base64Decode, padding_arg, Argument.
  cbn [nth getString res_bind IsUndefined negb].
  unfold base64.DecodeString, base64.EncodeToString.
  rewrite list_ascii_of_string_of_list_ascii, Encode_no_newline, std_decode_url_encoding.
  destruct (forallb _ _); [| done].
  by rewrite string_of_list_ascii_of_string.
Qed.

(** ** Hexadecimal *)

Definition hex_digit_ok (n : nat) : bool :=
  match hex.fromHexChar (hex.hex_at (Z.of_nat n)) with
  | Some d => (d =? Z.of_nat n)%Z
  | None => false
  end.

Lemma hex_digits_ok : forallb hex_digit_ok (seq 0 16) = true.
Proof. vm_compute. reflexivity. Qed.

Lemma fromHexChar_hex_at (v : Z) :
  (0 <= v < 16)%Z -> hex.fromHexChar (hex.hex_at v) = Some v.
Proof.
  intros Hv. pose proof hex_digits_ok as H. rewrite forallb_forall in H.
  specialize (H (Z.to_nat v)). unfold hex_digit_ok in H.
  rewrite Z2Nat.id in H by lia.
  assert (Hin : In (Z.to_nat v) (seq 0 16)) by (apply in_seq; lia).
  specialize (H Hin).
  destruct (hex.fromHexChar (hex.hex_at v)) as [d |]; [| done].
  apply Z.eqb_eq in H. by subst d.
Qed.

Lemma land_15 (x : Z) : Z.land x 15 = (x mod 16)%Z.
Proof. change 15%Z with (Z.ones 4). by rewrite Z.land_ones by lia. Qed.

Lemma hex_Decode_Encode (src : list ascii) : hex.Decode (hex.Encode src) = Some src.
Proof.
  induction src as [| v rest IH]; [done |].
  pose proof (byte_val_range v) as Hv.
  cbn [hex.Encode hex.Decode].
  rewrite !fromHexChar_hex_at, IH.
  - do 2 f_equal. apply to_byte_eq.
    rewrite land_15, Z.shiftr_div_pow2, Z.shiftl_mul_pow2 by lia.
    change (2 ^ 4)%Z with 16%Z.
    rewrite (lor_disjoint _ _ 4); [| lia | | ]; change (2 ^ 4)%Z with 16%Z;
      [| quotients | apply Z.mod_pos_bound; lia].
    quotients.
  - rewrite land_15. apply Z.mod_pos_bound. lia.
  - rewrite Z.shiftr_div_pow2 by lia. change (2 ^ 4)%Z with 16%Z. quotients.
Qed.

Lemma hex_Encode_length (src : list ascii) : length (hex.Encode src) = 2 * length src.
Proof. induction src as [| v rest IH]; cbn [hex.Encode length]; lia. Qed.

Lemma hex_Decode_length (n : nat) :
  forall src out, length src <= n -> hex.Decode src = Some out ->
                  length src = 2 * length out.
Proof.
  induction n as [| n IH]; intros src out Hn.
  - destruct src; [| cbn in Hn; lia]. by intros [= <-].
  - destruct src as [| p [| q rest]]; cbn [hex.Decode].
    + by intros [= <-].
    + done.
    + destruct (hex.fromHexChar p), (hex.fromHexChar q); try done.
      destruct (hex.Decode rest) as [out' |] eqn:Hrest; [| done].
      intros [= <-]. cbn [length] in *.
      rewrite (IH rest out') by (done || lia). lia.
Qed.

(** X5. [base16Decode] undoes [base16Encode] on every string, and the
    encoding is twice as long as the string. *)
Theorem base16_roundtrip (s : string) :
  exists e : string,
    base16Encode [VString s] = Ok (VString e)
    /\ String.length e = 2 * String.length s
    /\ base16Decode [VString e] = Ok (VString s).
Proof.
  exists (hex.EncodeToString s). split; [done |].
  unfold hex.EncodeToString. split.
  - rewrite string_length_of_list, hex_Encode_length.
    by rewrite <- (string_length_of_list (list_ascii_of_string s)),
      string_of_list_ascii_of_string.
  - unfold base16Decode, Argument. cbn [nth getString res_bind].
    unfold hex.DecodeString.
    rewrite list_ascii_of_string_of_list_ascii, hex_Decode_Encode.
    by rewrite string_of_list_ascii_of_string.
Qed.

(** X6. Whatever [base16Decode] accepts has an even number of characters,
    two for each byte it returns; an input of odd length is thrown
    back. *)
Theorem base16Decode_length (s out : string) :
  base16Decode [VString s] = Ok (VString out) ->
  String.length s = 2 * String.length out.
Proof.
  unfold base16Decode, Argument. cbn [nth getString res_bind].
  unfold hex.DecodeString.
  destruct (hex.Decode (list_ascii_of_string s)) as [bytes |] eqn:Hdec; [| done].
  intros [= <-]. rewrite string_length_of_list.
  rewrite <- (string_of_list_ascii_of_string s) at 1.
  rewrite string_length_of_list.
  by eapply hex_Decode_length.
Qed.

(** ** Reading an object of strings *)

(** X7. [getStringMap] accepts exactly the objects whose values are all
    strings, and what it returns has the same keys with the same
    strings. *)
Theorem getStringMap_contract (v : value) :
  (forall res : gmap string string,
      getStringMap v = Ok res ->
      exists m : gmap string value,
        v = VObject m /\ forall k, m !! k = VString <$> res !! k)
  /\ (forall m : gmap string value,
        v = VObject m ->
        (forall k x, m !! k = Some x -> exists s, x = VString s) ->
        exists res, getStringMap v = Ok res).
Proof.
  split.
  - intros res. destruct v as [| | | | | | | m]; try done. cbn [getStringMap].
    case_decide as Hall; [| done]. intros [= <-]. exists m. split; [done |].
    intros k. rewrite lookup_omap.
    destruct (m !! k) as [x |] eqn:Hk; [| done]. cbn.
    destruct (Hall k x Hk) as [s Hs]. destruct x; try done.
  - intros m -> Hall. cbn [getStringMap]. case_decide as Hdec; [eauto |].
    exfalso. apply Hdec. intros k x Hk. destruct (Hall k x Hk) as [s ->]. by eexists.
Qed.

Section MoreOfTheRuntime.

Context {host : Runtime}.
Context {keys : ContextKeys}.

(** ** [httpRequest] *)

(** X8. An [httpRequest] that returns has been given a URL that is not
    empty and a method that is GET, POST, PUT or PATCH once in upper case,
    and it returns an object with the status code, the headers and the
    body of the response. *)
Theorem httpRequest_accepts (f : list value) (n n' : runtimeJavascriptNakamaModule)
    (v : value) :
  httpRequest f n = (Ok v, n') ->
  exists (url method : string) (m : gmap string value),
    getString (Argument f 0) = Ok url /\ url <> ""
    /\ getString (Argument f 1) = Ok method
    /\ strings_ToUpper method ∈ ["GET"; "POST"; "PUT"; "PATCH"]
    /\ v = VObject m
    /\ (exists code, m !! "code" = Some (VInt code))
    /\ (exists headers, m !! "headers" = Some (VObject headers))
    /\ (exists body, m !! "body" = Some (VString body)).
Proof.
  unfold httpRequest.
  destruct (getString (Argument f 0)) as [url |]; [| done].
  destruct (getString (Argument f 1)) as [method |]; [| done].
  destruct (getStringMap (Argument f 2)) as [headers |]; [| done].
  destruct (getString (Argument f 3)) as [body |]; [| done].
  case_bool_decide as Hurl; [done |].
  destruct (valid_method (strings_ToUpper method)) eqn:Hmethod; cbn [negb]; [| done].
  destruct (http_NewRequest _ _ _) as [req |]; [| done].
  destruct (Do _ _) as [resp |]; [| done].
  destruct (resp_Body resp) as [responseBody |]; [| done].
  intros [= <- _]. eexists url, method, _. repeat split; try done.
  - unfold valid_method in Hmethod.
    repeat (apply orb_prop in Hmethod as [Hmethod | Hmethod]);
      apply bool_decide_eq_true in Hmethod; rewrite Hmethod; set_solver.
  - eexists. apply lookup_insert_eq.
  - eexists. rewrite lookup_insert_ne by done. apply lookup_insert_eq.
  - eexists. rewrite !lookup_insert_ne by done. apply lookup_insert_eq.
Qed.

(** X9. With well-typed arguments, an empty URL is thrown back as such,
    and so is, for a URL that is not empty, a method other than the four,
    whatever the transport would answer. *)
Theorem httpRequest_rejects (f : list value) (n : runtimeJavascriptNakamaModule)
    (url method body : string) (headers : gmap string string) :
  getString (Argument f 0) = Ok url ->
  getString (Argument f 1) = Ok method ->
  getStringMap (Argument f 2) = Ok headers ->
  getString (Argument f 3) = Ok body ->
  (url = "" ->
   fst (httpRequest f n) = Err (Throw (VString "URL string cannot be empty.")))
  /\ (url <> "" -> strings_ToUpper method ∉ ["GET"; "POST"; "PUT"; "PATCH"] ->
      fst (httpRequest f n)
      = Err (Throw (VString "Invalid method must be one of: 'get', 'post', 'put', 'patch'."))).
Proof.
  intros Hurl Hmethod Hheaders Hbody. unfold httpRequest.
  rewrite Hurl, Hmethod, Hheaders, Hbody. cbn [fst]. split.
  - intros ->. by rewrite bool_decide_eq_true_2.
  - intros Hne Hout. rewrite bool_decide_eq_false_2 by done.
    assert (valid_method (strings_ToUpper method) = false) as ->; [| done].
    unfold valid_method. apply not_true_is_false. intros Hv. apply Hout.
    repeat (apply orb_prop in Hv as [Hv | Hv]);
      apply bool_decide_eq_true in Hv; rewrite Hv; set_solver.
Qed.


(** ** Joining, leaving, terminating *)

(** The arguments [MatchJoinAttempt] calls its handler with. *)
Definition join_attempt_args (core : RuntimeJavascriptMatchCore) (tick : Z)
    (state : option value) (userID sessionID : UUID) (username : string)
    (sessionExpiry : Z) (vars : option (gmap string string))
    (clientIP clientPort node : string) (metadata : gmap string string) : list value :=
  [VObject (join_attempt_ctx core userID sessionID username sessionExpiry vars
              clientIP clientPort);
   loggerModule core; nakamaModule core; dispatcher core; VInt tick; ToValue state;
   member_presenceObj userID sessionID username node; VObject (VString <$> metadata)].

(** The arguments of [MatchJoin] and [MatchLeave], and of
    [MatchTerminate]. *)
Definition members_args (core : RuntimeJavascriptMatchCore) (tick : Z)
    (state : option value) (ps : list MatchPresence) : list value :=
  [VObject (ctx core); loggerModule core; nakamaModule core; dispatcher core;
   VInt tick; ToValue state; presences_arg ps].

Definition terminate_args (core : RuntimeJavascriptMatchCore) (tick : Z)
    (state : option value) (graceSeconds : Z) : list value :=
  [VObject (ctx core); loggerModule core; nakamaModule core; dispatcher core;
   VInt tick; ToValue state; VInt graceSeconds].

(** The handler's answer is an object whose [state] exports as [st]. *)
Definition carries_state (retVal : value) (st : option value) : Prop :=
  exists (retMap : gmap string value) (s : value),
    retVal = VObject retMap /\ retMap !! "state" = Some s /\ st = Export s.

(** X10. [MatchJoinAttempt] returns exactly when the handler answers with
    an object that has a boolean [accept] and a [state], and whose
    [reject_msg], if the candidate is refused and there is one, is a
    string.  The message it returns is that [reject_msg] for a refused
    candidate, empty when there is none; for an accepted candidate it is
    empty and [reject_msg] is not looked at. *)
Theorem MatchJoinAttempt_contract (core : RuntimeJavascriptMatchCore) (tick : Z)
    (state : option value) (userID sessionID : UUID) (username : string)
    (sessionExpiry : Z) (vars : option (gmap string string))
    (clientIP clientPort node : string) (metadata : gmap string string)
    (retVal : value) :
  joinAttemptFn core
    (join_attempt_args core tick state userID sessionID username sessionExpiry vars
       clientIP clientPort node metadata)
  = Ok retVal ->
  forall (st : option value) (allow : bool) (rejectMsg : string),
    MatchJoinAttempt core tick state userID sessionID username sessionExpiry vars
      clientIP clientPort node metadata
    = Ok (st, allow, rejectMsg)
    <-> exists (retMap : gmap string value) (s : value),
          retVal = VObject retMap
          /\ retMap !! "accept" = Some (VBool allow)
          /\ retMap !! "state" = Some s
          /\ st = Export s
          /\ (if allow then rejectMsg = ""
              else retMap !! "reject_msg" = None /\ rejectMsg = ""
                   \/ retMap !! "reject_msg" = Some (VString rejectMsg)).
Proof.
  intros Hret st allow rejectMsg. unfold MatchJoinAttempt.
  fold (join_attempt_args core tick state userID sessionID username sessionExpiry vars
          clientIP clientPort node metadata).
  rewrite Hret. unfold join_attempt_result. split.
  - destruct retVal as [| | | | | | | retMap]; try done.
    destruct (retMap !! "accept") as [[| | b | | | | |] |] eqn:Haccept; try done.
    destruct b; cbn [negb res_bind].
    + destruct (retMap !! "state") as [s |] eqn:Hstate; [| done].
      intros [= <- <- <-]. by eexists retMap, s.
    + destruct (retMap !! "reject_msg") as [[| | | | | r | |] |] eqn:Hmsg;
        cbn [res_bind]; try done;
        (destruct (retMap !! "state") as [s |] eqn:Hstate; [| done]);
        intros [= <- <- <-]; eexists retMap, s; rewrite ?Hmsg; auto 10.
  - intros (retMap & s & -> & Haccept & Hstate & -> & Hmsg).
    rewrite Haccept. destruct allow; cbn [negb res_bind].
    + by rewrite Hstate, Hmsg.
    + destruct Hmsg as [[-> ->] | ->]; cbn [res_bind]; by rewrite Hstate.
Qed.

Lemma state_result_Ok (fn : string) (retVal : value) (st : option value) :
  state_result fn (Ok retVal) = Ok st <-> carries_state retVal st.
Proof.
  unfold state_result, carries_state. split.
  - destruct retVal as [| | | | | | | retMap]; try done.
    destruct (retMap !! "state") as [s |] eqn:Hs; [| done].
    intros [= <-]. by eexists retMap, s.
  - intros (retMap & s & -> & Hs & ->). by rewrite Hs.
Qed.

Lemma state_result_Err (fn : string) (retVal : value) :
  has_state retVal = false ->
  state_result fn (Ok retVal)
  = Err (errors_New (fn +:+ " is expected to return an object with 'state' property")).
Proof.
  unfold state_result, has_state. destruct retVal as [| | | | | | | retMap]; try done.
  destruct (retMap !! "state"); [| done]. intros H.
  apply bool_decide_eq_false in H. by destruct H.
Qed.

(** X11. [MatchJoin], [MatchLeave] and [MatchTerminate] return a state
    exactly when their handler answers with an object that has a [state]
    property.  Any other answer, [null] and [undefined] among them, is an
    error for these three; a handler that throws fails the call with what
    it threw. *)
Theorem lifecycle_state_required (core : RuntimeJavascriptMatchCore) (tick : Z)
    (state : option value) (ps : list MatchPresence) (graceSeconds : Z) :
  (forall retVal, joinFn core (members_args core tick state ps) = Ok retVal ->
     (forall st, MatchJoin core tick state ps = Ok st <-> carries_state retVal st)
     /\ (has_state retVal = false ->
         MatchJoin core tick state ps
         = Err (errors_New "match_join is expected to return an object with 'state' property")))
  /\ (forall retVal, leaveFn core (members_args core tick state ps) = Ok retVal ->
        (forall st, MatchLeave core tick state ps = Ok st <-> carries_state retVal st)
        /\ (has_state retVal = false ->
            MatchLeave core tick state ps
            = Err (errors_New "match_leave is expected to return an object with 'state' property")))
  /\ (forall retVal, terminateFn core (terminate_args core tick state graceSeconds) = Ok retVal ->
        (forall st, MatchTerminate core tick state graceSeconds = Ok st
                    <-> carries_state retVal st)
        /\ (has_state retVal = false ->
            MatchTerminate core tick state graceSeconds
            = Err (errors_New "match_terminate is expected to return an object with 'state' property")))
  /\ (forall e, joinFn core (members_args core tick state ps) = Err e ->
        MatchJoin core tick state ps = Err (HandlerError e))
  /\ (forall e, leaveFn core (members_args core tick state ps) = Err e ->
        MatchLeave core tick state ps = Err (HandlerError e))
  /\ (forall e, terminateFn core (terminate_args core tick state graceSeconds) = Err e ->
        MatchTerminate core tick state graceSeconds = Err (HandlerError e)).
Proof.
  unfold MatchJoin, MatchLeave, MatchTerminate.
  fold (members_args core tick state ps).
  fold (terminate_args core tick state graceSeconds).
  split; [| split; [| split; [| split; [| split]]]].
  1-3: intros retVal ->; split;
    [intros st; apply state_result_Ok | apply state_result_Err].
  all: by intros e ->.
Qed.

(** ** What [MatchInit] and [matchLabelUpdate] leave behind *)

(** The label an answer of [match_init] asks for: empty unless given. *)
Definition requested_label (retMap : gmap string value) : string :=
  match retMap !! "label" with
  | Some (VString l) => l
  | _ => ""
  end.

(** X12. A [MatchInit] that fails leaves the core untouched.  One that
    succeeds binds the presence list and the deferring function it was
    given, writes the requested label, empty by default, and the tick rate
    into the context and nothing else, and does not touch what [Label]
    returns. *)
Theorem MatchInit_binds (core core' : RuntimeJavascriptMatchCore)
    (pl : MatchPresenceList) (dfn : DeferredMessage -> option string)
    (params : gmap string value) (r : res error (option value * Z)) :
  __RUNTIME_JAVASCRIPT_CTX_MATCH_LABEL <> __RUNTIME_JAVASCRIPT_CTX_MATCH_TICK_RATE ->
  MatchInit core pl dfn params = (r, core') ->
  match r with
  | Err _ => core' = core
  | Ok (state, rate) =>
      exists retMap : gmap string value,
        initFn core (init_args core params) = Ok (VObject retMap)
        /\ presenceList core' = pl
        /\ deferMessageFn core' = dfn
        /\ Label core' = Label core
        /\ stopped core' = stopped core
        /\ ctx core' !! __RUNTIME_JAVASCRIPT_CTX_MATCH_LABEL
           = Some (VString (requested_label retMap))
        /\ ctx core' !! __RUNTIME_JAVASCRIPT_CTX_MATCH_TICK_RATE = Some (VInt rate)
        /\ (forall k, k <> __RUNTIME_JAVASCRIPT_CTX_MATCH_LABEL ->
                      k <> __RUNTIME_JAVASCRIPT_CTX_MATCH_TICK_RATE ->
                      ctx core' !! k = ctx core !! k)
  end.
Proof.
  intros Hkeys. unfold MatchInit. fold (init_args core params).
  destruct (initFn core (init_args core params)) as [retVal | e]; [| by intros [= <- <-]].
  destruct (init_result retVal) as [[[state rate] lbl] | e] eqn:Hres;
    [| by intros [= <- <-]].
  intros [= <- <-].
  unfold init_result in Hres. destruct retVal as [| | | | | | | retMap]; try done.
  exists retMap. split; [done |].
  assert (Hlbl : lbl = requested_label retMap).
  { unfold requested_label.
    destruct (retMap !! "tick_rate") as [[| | | rt | | | |] |]; try done.
    destruct ((rt <? 1)%Z || (rt >? 30)%Z); [done |].
    destruct (retMap !! "label") as [[| | | | | l | |] |]; cbn [res_bind] in Hres; try done;
      destruct (retMap !! "state"); try done; by injection Hres as _ _ <-. }
  subst lbl. cbn.
  repeat split.
  - rewrite lookup_insert_ne by done. apply lookup_insert_eq.
  - apply lookup_insert_eq.
  - intros k Hk1 Hk2. by rewrite !lookup_insert_ne.
Qed.

(** X13. On a running match, [matchLabelUpdate] with a string asks the
    registry once.  When the registry accepts, [Label] returns the new
    label and the context carries it; when the registry refuses, the call
    throws and the core, its label and its context are as before. *)
Theorem matchLabelUpdate_Label (f : list value) (st : State) (input : string) :
  stopped (rm st) = false ->
  getJsString (Argument f 0) = Ok input ->
  calls (snd (matchLabelUpdate f st))
  = calls st ++ [UpdateMatchLabel (id (rm st)) input]
  /\ match registry_UpdateMatchLabel (matchRegistry (rm st)) (id (rm st)) input with
     | None =>
         fst (matchLabelUpdate f st) = Ok VUndefined
         /\ Label (rm (snd (matchLabelUpdate f st))) = input
         /\ ctx (rm (snd (matchLabelUpdate f st))) !! __RUNTIME_JAVASCRIPT_CTX_MATCH_LABEL
            = Some (VString input)
         /\ presenceList (rm (snd (matchLabelUpdate f st))) = presenceList (rm st)
     | Some err =>
         fst (matchLabelUpdate f st)
         = Err (Throw (VString ("error updating match label: " +:+ err)))
         /\ rm (snd (matchLabelUpdate f st)) = rm st
     end.
Proof.
  intros Hrun Hinput. unfold matchLabelUpdate. rewrite Hrun, Hinput.
  cbn [issue rm calls].
  destruct (registry_UpdateMatchLabel _ _ _) as [err |]; cbn.
  - done.
  - repeat split. apply lookup_insert_eq.
Qed.

(** ** Who a broadcast can reach *)

(** The resolution of a broadcast, whatever the arguments: every
    recipient is a member of the match; without envelope there is no
    recipient; an envelope carries the id of the match and the reliable
    flag that is returned with it. *)
Lemma validateBroadcast_members (core : RuntimeJavascriptMatchCore) (f : list value)
    (presenceIDs : list PresenceID) (msg : option Envelope) (reliable : bool) :
  validateBroadcast core f = Ok (presenceIDs, msg, reliable) ->
  (forall q, q ∈ presenceIDs -> q ∈ ListPresenceIDs (presenceList core))
  /\ match msg with
     | None => presenceIDs = []
     | Some m => MatchId m = idStr core /\ Reliable m = reliable
     end.
Proof.
  unfold validateBroadcast.
  destruct (getJsInt (Argument f 0)) as [opCode |]; cbn [res_bind]; [| done].
  destruct (broadcast_data (Argument f 1)) as [dataBytes |]; cbn [res_bind]; [| done].
  destruct (broadcast_filter (Argument f 2)) as [filter |]; cbn [res_bind]; [| done].
  assert (Hempty : forall q : PresenceID, q ∈ [] -> q ∈ ListPresenceIDs (presenceList core)).
  { intros q Hq. by apply elem_of_nil in Hq. }
  destruct filter as [[| first rest] |].
  - by intros [= <- <- <-].
  - destruct (broadcast_sender (Argument f 3)) as [presence |]; cbn [res_bind]; [| done].
    destruct (broadcast_members_spec core (first :: rest)) as (rs & Hiff & _ & ->); [done |].
    case_decide; [by intros [= <- <- <-] |].
    destruct (broadcast_reliable (Argument f 4)) as [rel |]; cbn [res_bind]; [| done].
    intros [= <- <- <-]. split; [| done]. intros q Hq. by apply Hiff.
  - destruct (broadcast_sender (Argument f 3)) as [presence |]; cbn [res_bind]; [| done].
    cbn [broadcast_members].
    destruct (broadcast_reliable (Argument f 4)) as [rel |]; cbn [res_bind]; [| done].
    by intros [= <- <- <-].
Qed.

(** X14. Whatever its arguments, [broadcastMessage] lets at most one call
    leave the core, and [broadcastMessageDeferred] likewise: a send,
    respectively a deferred message, that has an envelope of this match
    and at least one recipient, all of them members of the match.  A
    [broadcastMessage] that throws has let nothing leave. *)
Theorem broadcast_only_to_members (f : list value) (st : State) :
  (fst (broadcastMessage f st) = Ok VUndefined /\ snd (broadcastMessage f st) = st
   \/ (exists e, fst (broadcastMessage f st) = Err e) /\ snd (broadcastMessage f st) = st
   \/ exists presenceIDs m reliable,
        broadcastMessage f st
        = (Ok VUndefined, issue (SendToPresenceIDs presenceIDs (Some m) reliable) st)
        /\ presenceIDs <> []
        /\ (forall q, q ∈ presenceIDs -> q ∈ ListPresenceIDs (presenceList (rm st)))
        /\ MatchId m = idStr (rm st) /\ Reliable m = reliable)
  /\ (snd (broadcastMessageDeferred f st) = st
      \/ exists presenceIDs m reliable,
           snd (broadcastMessageDeferred f st)
           = issue (DeferMessage {| dm_PresenceIDs := presenceIDs;
                                    dm_Envelope := Some m;
                                    dm_Reliable := reliable |}) st
           /\ presenceIDs <> []
           /\ (forall q, q ∈ presenceIDs -> q ∈ ListPresenceIDs (presenceList (rm st)))
           /\ MatchId m = idStr (rm st) /\ Reliable m = reliable).
Proof.
  unfold broadcastMessage, broadcastMessageDeferred.
  destruct (stopped (rm st)); [by eauto 10 |].
  destruct (validateBroadcast (rm st) f) as [[[presenceIDs msg] reliable] | e] eqn:Hv;
    [| by eauto 10].
  apply validateBroadcast_members in Hv as [Hmem Hmsg].
  destruct presenceIDs as [| p ps]; cbn [length Nat.eqb negb]; [by eauto 10 |].
  destruct msg as [m |]; [| done]. destruct Hmsg as [Hid Hrel].
  split.
  - right. right. by eexists (p :: ps), m, reliable.
  - right. eexists (p :: ps), m, reliable.
    split; [| done]. by destruct (deferMessageFn _ _).
Qed.

(** X15. A broadcast without filter ([undefined] or [null]) in an
    otherwise well-formed call goes to all members of the match as they
    are listed; in a match without members nothing is sent. *)
Theorem broadcast_without_filter (f : list value) (st : State)
    (opCode : Z) (dataBytes : option string) (presence : option UserPresence)
    (reliable : bool) :
  stopped (rm st) = false ->
  is_nil (Argument f 2) = true ->
  getJsInt (Argument f 0) = Ok opCode ->
  broadcast_data (Argument f 1) = Ok dataBytes ->
  broadcast_sender (Argument f 3) = Ok presence ->
  broadcast_reliable (Argument f 4) = Ok reliable ->
  let m := {| MatchId := idStr (rm st); Presence := presence; OpCode := opCode;
              Data := dataBytes; Reliable := reliable |} in
  let everyone := ListPresenceIDs (presenceList (rm st)) in
  validateBroadcast (rm st) f = Ok (everyone, Some m, reliable)
  /\ broadcastMessage f st
     = (Ok VUndefined,
        if decide (everyone = []) then st
        else issue (SendToPresenceIDs everyone (Some m) reliable) st).
Proof.
  intros Hrun Hnil Hop Hdata Hsender Hreliable m everyone.
  assert (Hv : validateBroadcast (rm st) f = Ok (everyone, Some m, reliable)).
  { unfold validateBroadcast. rewrite Hop, Hdata. cbn [res_bind].
    assert (broadcast_filter (Argument f 2) = Ok None) as ->.
    { unfold broadcast_filter, is_nil in *.
      by destruct (IsUndefined (Argument f 2)), (IsNull (Argument f 2)). }
    cbn [res_bind]. rewrite Hsender. cbn [res_bind broadcast_members].
    by rewrite Hreliable. }
  split; [done |]. unfold broadcastMessage. rewrite Hrun, Hv.
  by destruct everyone.
Qed.

(** ** Presence objects and the entries of a filter *)

Lemma res_mapM_Err {E A B} (f : A -> res E B) (l : list A) (x : A) (e : E) :
  x ∈ l -> f x = Err e -> exists e', res_mapM f l = Err e'.
Proof.
  intros Hin Hx. induction l as [| y l IH]; [by apply elem_of_nil in Hin |].
  cbn [res_mapM]. apply elem_of_cons in Hin as [<- | Hin].
  - rewrite Hx. by eexists.
  - destruct (f y); cbn [res_bind]; [| by eexists].
    destruct (IH Hin) as [e' ->]. by eexists.
Qed.

Lemma res_mapM_Forall2 {E A B} (f : A -> res E B) (l : list A) (l' : list B) :
  res_mapM f l = Ok l' -> Forall2 (fun x y => f x = Ok y) l l'.
Proof.
  revert l'. induction l as [| x l IH]; intros l'; cbn [res_mapM].
  - intros [= <-]. constructor.
  - destruct (f x) as [y |] eqn:Hx; cbn [res_bind]; [| done].
    destruct (res_mapM f l) as [ys |]; cbn [res_bind]; [| done].
    intros [= <-]. constructor; [done | by apply IH].
Qed.

(** The presence object handed to a handler has a [node], and no
    [node_id]: read as an entry of a filter or of a kick list it is
    refused. *)
Lemma member_presenceObj_refused (userID sessionID : UUID) (username node : string) :
  (exists e, filter_entry (member_presenceObj userID sessionID username node) = Err e)
  /\ (exists e, kick_entry (member_presenceObj userID sessionID username node) = Err e).
Proof.
  unfold filter_entry, kick_entry, member_presenceObj, index_or_nil.
  rewrite lookup_insert_eq.
  rewrite (lookup_insert_ne _ "user_id" "session_id"), lookup_insert_eq by done.
  rewrite !(lookup_insert_ne _ _ "node_id"), lookup_empty by done.
  cbn [default from_option Datatypes.id is_nil IsUndefined IsNull orb].
  split.
  - destruct (uuid_FromString (uuid_String sessionID)); by eexists.
  - destruct (uuid_FromString (uuid_String userID)); [| by eexists].
    destruct (uuid_FromString (uuid_String sessionID)); by eexists.
Qed.

(** X16. The presence objects the core hands to the handlers of
    [MatchJoinAttempt], [MatchJoin], [MatchLeave] and [MatchLoop] name
    their node under [node], while a recipient filter and [matchKick] read
    [node_id]: a broadcast whose filter holds such an object as it came,
    and a [matchKick] whose list holds one, throw, and nothing is sent or
    kicked. *)
Theorem handed_presence_is_refused (f : list value) (st : State) (slice : list value)
    (userID sessionID : UUID) (username node : string) :
  member_presenceObj userID sessionID username node ∈ slice ->
  (Argument f 2 = VArray slice ->
   (exists e, validateBroadcast (rm st) f = Err e)
   /\ (exists e, broadcastMessage f st = (Err e, st))
   /\ (exists e, broadcastMessageDeferred f st = (Err e, st)))
  /\ (Argument f 0 = VArray slice -> exists e, matchKick f st = (Err e, st)).
Proof.
  intros Hin.
  destruct (member_presenceObj_refused userID sessionID username node)
    as [[e1 Hfilter] [e2 Hkick]].
  split.
  - intros Harg.
    assert (Hv : exists e, validateBroadcast (rm st) f = Err e).
    { unfold validateBroadcast.
      destruct (getJsInt (Argument f 0)); cbn [res_bind]; [| by eexists].
      destruct (broadcast_data (Argument f 1)); cbn [res_bind]; [| by eexists].
      rewrite Harg. cbn [broadcast_filter IsUndefined IsNull negb andb].
      destruct (res_mapM_Err filter_entry slice _ e1 Hin Hfilter) as [e' ->].
      by eexists. }
    split; [done |]. destruct Hv as [e Hv].
    unfold broadcastMessage, broadcastMessageDeferred. rewrite Hv.
    destruct (stopped (rm st)); split; by eexists.
  - intros Harg. unfold matchKick. destruct (stopped (rm st)); [by eexists |].
    rewrite Harg. cbn [IsUndefined IsNull orb].
    destruct (res_mapM_Err kick_entry slice _ e2 Hin Hkick) as [e' ->]. by eexists.
Qed.

(** The presence object of an inbound message is such an object. *)
Lemma presenceObj_member (msg : MatchDataMessage) :
  presenceObj msg
  = member_presenceObj (msg_UserID msg) (msg_SessionID msg) (msg_Username msg) (msg_Node msg).
Proof. reflexivity. Qed.

(** X17. [matchKick] kicks all or nothing: either nothing leaves the
    core, or the argument is an array and one [Kick] on the stream of the
    match leaves with one presence for each of its entries, in order, each
    read from the [user_id], [session_id] and [node_id] of its entry and
    with an empty username. *)
Theorem matchKick_all_or_nothing (f : list value) (st : State) :
  snd (matchKick f st) = st
  \/ exists (slice : list value) (ps : list MatchPresence),
       Argument f 0 = VArray slice
       /\ matchKick f st = (Ok VUndefined, issue (Kick (stream (rm st)) ps) st)
       /\ Forall2 (fun v p => kick_entry v = Ok p /\ mp_Username p = "") slice ps.
Proof.
  unfold matchKick. destruct (stopped (rm st)); [by left |].
  destruct (IsUndefined (Argument f 0) || IsNull (Argument f 0)); [by left |].
  destruct (Argument f 0) as [| | | | | | slice |]; try by left.
  destruct (res_mapM kick_entry slice) as [ps |] eqn:Hps; [| by left].
  right. exists slice, ps. split; [done |]. split; [done |].
  apply res_mapM_Forall2 in Hps.
  eapply Forall2_impl; [exact Hps |]. intros v p Hv. split; [done |].
  unfold kick_entry in Hv.
  repeat match type of Hv with
         | context [match ?x with _ => _ end] => destruct x; try done
         end.
  by injection Hv as <-.
Qed.

End MoreOfTheRuntime.

(** * The further properties on concrete inputs *)

(** X3 on the encoding of "hi?>". *)
Lemma base64UrlDecode_groups_witness :
  length (filter (fun c => base64.is_newline c = false)
            (list_ascii_of_string "aGk_Pg==")) mod 4 = 0
  /\ String.length "hi?>"
     <= 3 * (length (filter (fun c => base64.is_newline c = false)
                       (list_ascii_of_string "aGk_Pg==")) / 4).
Proof.
  apply (base64UrlDecode_groups "aGk_Pg==" "hi?>"). vm_compute. reflexivity.
Defined.

(** X6 on the four digits of "hi". *)
Lemma base16Decode_length_witness :
  String.length "6869" = 2 * String.length "hi".
Proof.
  apply (base16Decode_length "6869" "hi"). vm_compute. reflexivity.
Defined.

(** X8 on a GET request written in lower case. *)
Lemma httpRequest_accepts_witness :
  exists (url method : string) (m : gmap string value),
    getString (Argument (sample_request []) 0) = Ok url /\ url <> ""
    /\ getString (Argument (sample_request []) 1) = Ok method
    /\ strings_ToUpper (Runtime := sample_runtime) method ∈ ["GET"; "POST"; "PUT"; "PATCH"]
    /\ sample_answer "5000000000" = VObject m
    /\ (exists code, m !! "code" = Some (VInt code))
    /\ (exists headers, m !! "headers" = Some (VObject headers))
    /\ (exists body, m !! "body" = Some (VString body)).
Proof.
  apply (httpRequest_accepts (host := sample_runtime) (sample_request [])
           NewRuntimeJavascriptNakamaModule NewRuntimeJavascriptNakamaModule
           (sample_answer "5000000000")).
  vm_compute. reflexivity.
Defined.

(** X9 on a request without URL. *)
Lemma httpRequest_rejects_witness :
  fst (httpRequest (host := sample_runtime)
         [VString ""; VString "delete"; VObject ∅; VString ""]
         NewRuntimeJavascriptNakamaModule)
  = Err (Throw (VString "URL string cannot be empty.")).
Proof.
  apply (httpRequest_rejects (host := sample_runtime)
           [VString ""; VString "delete"; VObject ∅; VString ""]
           NewRuntimeJavascriptNakamaModule "" "delete" "" ∅);
    reflexivity.
Defined.

(** X18 on a call that fails for its empty URL. *)
Lemma httpRequest_with_timeout_witness :
  Timeout (httpClient (snd (httpRequest (host := sample_runtime)
                              [VString ""; VString "get"; VObject ∅; VString ""; VInt 100]
                              NewRuntimeJavascriptNakamaModule)))
  = wrap_int64 (wrap_int64 (sample_ToInteger (VInt 100)) * Millisecond).
Proof.
  apply (httpRequest_with_timeout (host := sample_runtime)
           [VString ""; VString "get"; VObject ∅; VString ""; VInt 100]
           NewRuntimeJavascriptNakamaModule "" "get" "" ∅);
    reflexivity.
Defined.

(** X19 on a new module. *)
Lemma httpRequest_without_timeout_witness :
  snd (httpRequest (host := sample_runtime) (sample_request [])
         NewRuntimeJavascriptNakamaModule)
  = NewRuntimeJavascriptNakamaModule.
Proof.
  apply (httpRequest_without_timeout (host := sample_runtime)). reflexivity.
Defined.

(** X10 on the answer [{accept: false, reject_msg: 'full', state: 1}]. *)
Lemma MatchJoinAttempt_contract_witness :
  MatchJoinAttempt (host := sample_runtime) (keys := sample_keys)
    (sample_core_joining (fun _ => Ok sample_refusal)) 3%Z (Some (VInt 0))
    266%N 10%N "player" 0%Z None "" "" "node1" ∅
  = Ok (Some (VInt 1), false, "full")
  <-> exists (retMap : gmap string value) (s : value),
        sample_refusal = VObject retMap
        /\ retMap !! "accept" = Some (VBool false)
        /\ retMap !! "state" = Some s
        /\ Some (VInt 1) = Export s
        /\ (retMap !! "reject_msg" = None /\ "full" = ""
            \/ retMap !! "reject_msg" = Some (VString "full")).
Proof.
  apply (MatchJoinAttempt_contract (host := sample_runtime) (keys := sample_keys)
           (sample_core_joining (fun _ => Ok sample_refusal)) 3%Z (Some (VInt 0))
           266%N 10%N "player" 0%Z None "" "" "node1" ∅ sample_refusal eq_refl
           (Some (VInt 1)) false "full").
Defined.

(** The scenario of the design document: the refusal comes back as
    [(1, false, "full")]; an accepted candidate gets no message even when
    the handler gives one. *)
Example MatchJoinAttempt_examples :
  let attempt answer :=
    MatchJoinAttempt (host := sample_runtime) (keys := sample_keys)
      (sample_core_joining (fun _ => Ok (VObject answer))) 3%Z (Some (VInt 0))
      266%N 10%N "player" 0%Z None "" "" "node1" ∅ in
  attempt (<["accept" := VBool false]>
           (<["reject_msg" := VString "full"]> (<["state" := VInt 1]> ∅)))
  = Ok (Some (VInt 1), false, "full")
  /\ attempt (<["accept" := VBool true]>
              (<["reject_msg" := VInt 5]> (<["state" := VInt 1]> ∅)))
     = Ok (Some (VInt 1), true, "")
  /\ attempt (<["accept" := VBool false]>
              (<["reject_msg" := VInt 5]> (<["state" := VInt 1]> ∅)))
     = Err (errors_New "match_join_attempt 'reject_msg' property must be a string")
  /\ attempt (<["accept" := VInt 1]> (<["state" := VInt 1]> ∅))
     = Err (errors_New "match_join_attempt 'accept' property must be a boolean").
Proof. vm_compute. repeat split. Qed.

(** X12 on the answer [{state: {score: 0}, tick_rate: 10, label: 'arena-1'}]. *)
Lemma MatchInit_binds_witness :
  exists retMap : gmap string value,
    sample_init_answer = VObject retMap
    /\ Label (snd (MatchInit (host := sample_runtime)
                     (sample_core (fun _ => Ok sample_init_answer) (fun _ => Ok VNull) false [])
                     {| presences := sample_members |} (fun _ => None) ∅))
       = ""
    /\ presenceList (snd (MatchInit (host := sample_runtime)
                            (sample_core (fun _ => Ok sample_init_answer)
                               (fun _ => Ok VNull) false [])
                            {| presences := sample_members |} (fun _ => None) ∅))
       = {| presences := sample_members |}.
Proof.
  destruct (MatchInit_binds (host := sample_runtime)
              (sample_core (fun _ => Ok sample_init_answer) (fun _ => Ok VNull) false [])
              (snd (MatchInit (host := sample_runtime)
                      (sample_core (fun _ => Ok sample_init_answer)
                         (fun _ => Ok VNull) false [])
                      {| presences := sample_members |} (fun _ => None) ∅))
              {| presences := sample_members |} (fun _ => None) ∅
              (Ok (Some (VObject (<["score" := VInt 0]> ∅)), 10%Z)))
    as (retMap & Hret & Hpl & _ & Hlabel & _).
  - discriminate.
  - vm_compute. reflexivity.
  - exists retMap.
    change (@Ok exception value sample_init_answer = Ok (VObject retMap)) in Hret.
    apply (f_equal (fun r => match r with Ok v => v | Err _ => VNull end)) in Hret.
    split; [exact Hret |]. split; [exact Hlabel | exact Hpl].
Defined.

(** X13 on a registry that accepts every label. *)
Lemma matchLabelUpdate_Label_witness :
  calls (snd (matchLabelUpdate (host := sample_runtime) [VString "arena-2"]
                (sample_state false sample_members)))
  = [UpdateMatchLabel 1%N "arena-2"]
  /\ fst (matchLabelUpdate (host := sample_runtime) [VString "arena-2"]
            (sample_state false sample_members))
     = Ok VUndefined
  /\ Label (rm (snd (matchLabelUpdate (host := sample_runtime) [VString "arena-2"]
                       (sample_state false sample_members))))
     = "arena-2".
Proof.
  destruct (matchLabelUpdate_Label (host := sample_runtime) [VString "arena-2"]
              (sample_state false sample_members) "arena-2" eq_refl eq_refl)
    as (Hcalls & Hok & Hlabel & _).
  split; [exact Hcalls |]. split; [exact Hok | exact Hlabel].
Defined.

(** X15 on a match with the members a and b. *)
Lemma broadcast_without_filter_witness :
  validateBroadcast (host := sample_runtime) (rm (sample_state false sample_members))
    (sample_broadcast VUndefined VUndefined)
  = Ok ([ {| SessionID := 10%N; Node := "node1" |};
          {| SessionID := 11%N; Node := "node1" |} ],
        Some (sample_envelope None), true)
  /\ broadcastMessage (host := sample_runtime) (sample_broadcast VUndefined VUndefined)
       (sample_state false sample_members)
     = (Ok VUndefined,
        issue (SendToPresenceIDs
                 [ {| SessionID := 10%N; Node := "node1" |};
                   {| SessionID := 11%N; Node := "node1" |} ]
                 (Some (sample_envelope None)) true)
          (sample_state false sample_members)).
Proof.
  apply (broadcast_without_filter (host := sample_runtime)
           (sample_broadcast VUndefined VUndefined) (sample_state false sample_members)
           7%Z (Some "ping") None true);
    reflexivity.
Defined.

(** X16 on the sender of [sample_message], used as the filter of a
    broadcast. *)
Lemma handed_presence_is_refused_witness :
  exists e,
    validateBroadcast (host := sample_runtime) (rm (sample_state false sample_members))
      (sample_broadcast
         (VArray [presenceObj (host := sample_runtime) sample_message]) VUndefined)
    = Err e.
Proof.
  apply (handed_presence_is_refused (host := sample_runtime)
           (sample_broadcast
              (VArray [presenceObj (host := sample_runtime) sample_message]) VUndefined)
           (sample_state false sample_members)
           [presenceObj (host := sample_runtime) sample_message]
           266%N 10%N "player" "node1").
  - apply list_elem_of_singleton. reflexivity.
  - reflexivity.
Defined.
